(** * Legislative vote summaries: a shallow embedding of [main.py]

    Python integers are [Z], strings are [string] (ASCII text), the
    dataclasses are records, [Dict[int, ...]] is [gmap Z ...], [Set[int]] is
    [gset Z], and the lists the code walks in order are [list]s.  The two
    summary computations are given twice: as functions that pass the two
    accumulator dictionaries explicitly, and (module [Store]) as programs
    over a store of Python objects in which every [dict] and [set] is an
    allocated object reached through a reference. *)

From Stdlib Require Import ZArith String Ascii List Sorted Permutation.
From stdpp Require Import gmap list strings sorting.

(* The set and first-order solvers clear hypotheses that may be absent. *)
#[local] Set Warnings "-clear-no-such-hyp".

Local Open Scope string_scope.
Local Open Scope Z_scope.
Local Open Scope list_scope.

(** ** Data model (lines 44-67) *)

Record Legislator := mkLegislator { leg_id : Z; leg_name : string }.

Record Bill := mkBill {
  bill_id_of : Z;
  bill_title : string;
  bill_sponsor_id : option Z
}.

Record Vote := mkVote { vote_id_of : Z; vote_bill_id : Z }.

Record VoteResult := mkVoteResult {
  legislator_id : Z;
  vote_id : Z;
  vote_type : Z
}.

(** The rows of the two summaries are dictionaries with a fixed key set. *)
Record LegislatorRow := mkLegislatorRow {
  lr_id : Z;
  lr_name : string;
  num_supported_bills : Z;
  num_opposed_bills : Z
}.

Record BillRow := mkBillRow {
  br_id : Z;
  br_title : string;
  supporter_count : Z;
  opposer_count : Z;
  primary_sponsor : string
}.

(** ** Builtins the code relies on *)

(** [sorted(xs, key=...)]: a stable sort on an integer key.  Every stable
    sort returns the same list; insertion from the right is one. *)
Fixpoint sorted_insert {A} (key : A → Z) (x : A) (l : list A) : list A :=
  match l with
  | [] => [x]
  | y :: l' => if key x <=? key y then x :: y :: l'
               else y :: sorted_insert key x l'
  end.

Definition sorted {A} (key : A → Z) (l : list A) : list A :=
  foldr (sorted_insert key) [] l.

(** [d.setdefault(k, set()).add(x)] on a dictionary of sets. *)
Definition setdefault_add (k x : Z) (d : gmap Z (gset Z)) : gmap Z (gset Z) :=
  <[k := {[x]} ∪ default ∅ (d !! k)]> d.

(** [len(d.get(k, set()))] *)
Definition len_get (d : gmap Z (gset Z)) (k : Z) : Z :=
  Z.of_nat (size (default ∅ (d !! k))).

(** ** compute_legislator_summary (lines 152-180) *)

(** One iteration of the loop of lines 161-168 on the pair
    [(supported, opposed)]. *)
Definition legislator_step (votes : gmap Z Vote)
    (acc : gmap Z (gset Z) * gmap Z (gset Z)) (result : VoteResult)
    : gmap Z (gset Z) * gmap Z (gset Z) :=
  match votes !! vote_id result with
  | None => acc
  | Some vote =>
      if vote_type result =? 1 then
        (setdefault_add (legislator_id result) (vote_bill_id vote) acc.1, acc.2)
      else if vote_type result =? 2 then
        (acc.1, setdefault_add (legislator_id result) (vote_bill_id vote) acc.2)
      else acc
  end.

Definition legislator_tally (vote_results : list VoteResult)
    (votes : gmap Z Vote) : gmap Z (gset Z) * gmap Z (gset Z) :=
  fold_left (legislator_step votes) vote_results (∅, ∅).

Definition legislator_row (supported opposed : gmap Z (gset Z))
    (legislator : Legislator) : LegislatorRow :=
  {| lr_id := leg_id legislator;
     lr_name := leg_name legislator;
     num_supported_bills := len_get supported (leg_id legislator);
     num_opposed_bills := len_get opposed (leg_id legislator) |}.

Definition compute_legislator_summary (legislators : list Legislator)
    (vote_results : list VoteResult) (votes : gmap Z Vote)
    : list LegislatorRow :=
  let '(supported, opposed) := legislator_tally vote_results votes in
  map (legislator_row supported opposed) (sorted leg_id legislators).

(** ** compute_bill_summary (lines 183-220) *)

Definition bill_step (votes : gmap Z Vote)
    (acc : gmap Z (gset Z) * gmap Z (gset Z)) (result : VoteResult)
    : gmap Z (gset Z) * gmap Z (gset Z) :=
  match votes !! vote_id result with
  | None => acc
  | Some vote =>
      if vote_type result =? 1 then
        (setdefault_add (vote_bill_id vote) (legislator_id result) acc.1, acc.2)
      else if vote_type result =? 2 then
        (acc.1, setdefault_add (vote_bill_id vote) (legislator_id result) acc.2)
      else acc
  end.

Definition bill_tally (vote_results : list VoteResult)
    (votes : gmap Z Vote) : gmap Z (gset Z) * gmap Z (gset Z) :=
  fold_left (bill_step votes) vote_results (∅, ∅).

(** [{leg.id: leg for leg in legislators}]: a later entry replaces an
    earlier one with the same id. *)
Definition legislator_by_id (legislators : list Legislator)
    : gmap Z Legislator :=
  fold_left (λ d leg, <[leg_id leg := leg]> d) legislators ∅.

(** Lines 206-209.  A dataclass instance is always truthy, so
    [sponsor.name if sponsor else "Unknown"] tests only for [None]. *)
Definition sponsor_name_of (by_id : gmap Z Legislator) (bill : Bill) : string :=
  match bill_sponsor_id bill with
  | None => "Unknown"
  | Some sid =>
      match by_id !! sid with
      | Some sponsor => leg_name sponsor
      | None => "Unknown"
      end
  end.

Definition bill_row (supporters opposers : gmap Z (gset Z))
    (by_id : gmap Z Legislator) (bill : Bill) : BillRow :=
  {| br_id := bill_id_of bill;
     br_title := bill_title bill;
     supporter_count := len_get supporters (bill_id_of bill);
     opposer_count := len_get opposers (bill_id_of bill);
     primary_sponsor := sponsor_name_of by_id bill |}.

Definition compute_bill_summary (bills : list Bill)
    (legislators : list Legislator) (vote_results : list VoteResult)
    (votes : gmap Z Vote) : list BillRow :=
  let '(supporters, opposers) := bill_tally vote_results votes in
  let by_id := legislator_by_id legislators in
  map (bill_row supporters opposers by_id) (sorted bill_id_of bills).

(** ** Builtins on strings *)

(** [str.isspace] on ASCII: tab to carriage return, the four separators
    FS, GS, RS, US, and the space. *)
Definition is_space (c : ascii) : bool :=
  let n := nat_of_ascii c in
  ((9 <=? n)%nat && (n <=? 13)%nat) || ((28 <=? n)%nat && (n <=? 32)%nat).

Fixpoint lstrip (s : string) : string :=
  match s with
  | EmptyString => EmptyString
  | String c s' => if is_space c then lstrip s' else s
  end.

Fixpoint rstrip (s : string) : string :=
  match s with
  | EmptyString => EmptyString
  | String c s' =>
      match rstrip s' with
      | EmptyString => if is_space c then EmptyString else String c EmptyString
      | t => String c t
      end
  end.

(** [s.strip()] *)
Definition strip (s : string) : string := rstrip (lstrip s).

Definition digit_of (c : ascii) : option Z :=
  let n := nat_of_ascii c in
  if ((48 <=? n)%nat && (n <=? 57)%nat) then Some (Z.of_nat n - 48) else None.

(** The digits of a decimal literal as [int] reads them: single underscores
    are allowed between two digits. [prev] tells whether the previous
    character was a digit. *)
Fixpoint digits_value (acc : Z) (prev : bool) (s : string) : option Z :=
  match s with
  | EmptyString => if prev then Some acc else None
  | String c s' =>
      match digit_of c with
      | Some d => digits_value (10 * acc + d) true s'
      | None =>
          if Ascii.eqb c "_" then
            if prev then digits_value acc false s' else None
          else None
      end
  end.

(** [int(s)] on ASCII text in base ten; [None] stands for [ValueError].
    Surrounding white space is dropped, one sign is allowed.  (The
    interpreter's configurable cap on the number of digits is left out.) *)
Definition py_int (s : string) : option Z :=
  match strip s with
  | String "-" t => Z.opp <$> digits_value 0 false t
  | String "+" t => digits_value 0 false t
  | t => digits_value 0 false t
  end.

(** ** Raw rows and the loaders (lines 70-149) *)

(** A row of [csv.DictReader] as [read_csv] types it: [Dict[str, str]],
    in column order. *)
Abbreviation RawRow := (list (string * string)).

(** [row.get(k)] *)
Fixpoint row_get {V} (row : list (string * V)) (k : string) : option V :=
  match row with
  | [] => None
  | (k', v) :: row' => if String.eqb k' k then Some v else row_get row' k
  end.

(** [row[k] = v]: an existing key keeps its place, a new key goes last. *)
Fixpoint row_set {V} (row : list (string * V)) (k : string) (v : V)
    : list (string * V) :=
  match row with
  | [] => [(k, v)]
  | (k', v') :: row' =>
      if String.eqb k' k then (k', v) :: row' else (k', v') :: row_set row' k v
  end.

(** [list(row.keys())] *)
Definition row_keys {V} (row : list (string * V)) : list string := row.*1.

(** [a or b] on optional strings: [None] and the empty string are falsy. *)
Definition py_or (a b : option string) : option string :=
  match a with
  | Some (String _ _) => a
  | _ => b
  end.

(** Lines 70-77. *)
Definition parse_int (value : option string) : option Z :=
  match value with
  | None => None
  | Some EmptyString => None
  | Some s => py_int s
  end.

(** The sponsor column under its three names (lines 107-112, 277-281). *)
Definition sponsor_id_raw (row : RawRow) : option string :=
  py_or (py_or (row_get row "Primary Sponsor") (row_get row "primary_sponsor"))
        (row_get row "sponsor_id").

(** Lines 88-96, on the rows [read_csv] yields. *)
Fixpoint load_legislators (rows : list RawRow) : list Legislator :=
  match rows with
  | [] => []
  | row :: rows' =>
      match parse_int (row_get row "id") with
      | None => load_legislators rows'
      | Some leg_id =>
          mkLegislator leg_id (strip (default "" (row_get row "name")))
            :: load_legislators rows'
      end
  end.

(** Lines 99-120. *)
Fixpoint load_bills (rows : list RawRow) : list Bill :=
  match rows with
  | [] => []
  | row :: rows' =>
      match parse_int (row_get row "id") with
      | None => load_bills rows'
      | Some bill_id =>
          let sponsor_id := parse_int (sponsor_id_raw row) in
          mkBill bill_id (strip (default "" (row_get row "title"))) sponsor_id
            :: load_bills rows'
      end
  end.

(** Lines 123-132: a later row replaces an earlier one with the same id. *)
Definition load_votes (rows : list RawRow) : gmap Z Vote :=
  fold_left (λ votes row,
    match parse_int (row_get row "id"), parse_int (row_get row "bill_id") with
    | Some vote_id, Some bill_id => <[vote_id := mkVote vote_id bill_id]> votes
    | _, _ => votes
    end) rows ∅.

(** Lines 135-149. *)
Fixpoint load_vote_results (rows : list RawRow) : list VoteResult :=
  match rows with
  | [] => []
  | row :: rows' =>
      match parse_int (row_get row "legislator_id"),
            parse_int (row_get row "vote_id"),
            parse_int (row_get row "vote_type") with
      | Some legislator_id, Some vote_id, Some vote_type =>
          mkVoteResult legislator_id vote_id vote_type :: load_vote_results rows'
      | _, _, _ => load_vote_results rows'
      end
  end.

(** ** The files of a data directory

    [None] is a file that does not exist; otherwise the rows [read_csv]
    yields from it. *)
Record DataDir := mkDataDir {
  bills_csv : option (list RawRow);
  legislators_csv : option (list RawRow);
  votes_csv : option (list RawRow);
  vote_results_csv : option (list RawRow)
}.

(** [DATASETS[category]] resolved in [data_dir]; the outer [None] is a
    category that is not a key of [DATASETS]. *)
Definition dataset (data_dir : DataDir) (category : string)
    : option (option (list RawRow)) :=
  if String.eqb category "bills" then Some (bills_csv data_dir)
  else if String.eqb category "legislators" then Some (legislators_csv data_dir)
  else if String.eqb category "votes" then Some (votes_csv data_dir)
  else if String.eqb category "vote_results" then Some (vote_results_csv data_dir)
  else None.

(** ** Categories (lines 28-38, 239-247) *)

(** The keys of [DATASETS] and of [COMPUTED_PREVIEWS]. *)
Definition DATASETS : list string :=
  ["bills"; "legislators"; "votes"; "vote_results"].
Definition COMPUTED_PREVIEWS : list string :=
  ["legislator_summary"; "bill_summary"].

(** [s.lower()] on ASCII. *)
Definition lower_char (c : ascii) : ascii :=
  let n := nat_of_ascii c in
  if ((65 <=? n)%nat && (n <=? 90)%nat) then ascii_of_nat (n + 32) else c.

Fixpoint lower (s : string) : string :=
  match s with
  | EmptyString => EmptyString
  | String c s' => String (lower_char c) (lower s')
  end.

(** Lines 239-247. *)
Definition normalize_category (value : option string) : option string :=
  match value with
  | None => None
  | Some value =>
      let value_lower := lower value in
      if bool_decide (value_lower ∈ DATASETS) then Some value_lower
      else if bool_decide (value_lower ∈ COMPUTED_PREVIEWS) then Some value_lower
      else None
  end.

(** ** Programs over a store of Python objects *)

Module Store.

Abbreviation loc := nat.

(** The values of an enriched row: strings, and the integer [bill_id]. *)
Inductive pyval := VStr (s : string) | VInt (z : Z).

Inductive obj :=
| OSet (s : gset Z)                    (* a [Set[int]] *)
| ODict (d : gmap Z loc)               (* a [Dict[int, Set[int]]] holding references *)
| ORaw (r : RawRow)                    (* a [Dict[str, str]] read from a file *)
| ORow (r : list (string * pyval)).    (* a [Dict[str, object]] *)

(** The store: object [l] lives at index [l]; allocation appends. *)
Abbreviation heap := (list obj).

Inductive exn :=
| Exit (code : Z)      (* [typer.Exit] *)
| BadRef.              (* a reference to no object, or to one of another type *)

Inductive outcome (A : Type) :=
| Ok (a : A) (h : heap)
| Raise (e : exn).
Arguments Ok {A} a h.
Arguments Raise {A} e.

Definition M (A : Type) : Type := heap → outcome A.

Definition ret {A} (a : A) : M A := λ h, Ok a h.

Definition bind {A B} (m : M A) (f : A → M B) : M B :=
  λ h, match m h with
       | Ok a h' => f a h'
       | Raise e => Raise e
       end.

Definition raise {A} (e : exn) : M A := λ _, Raise e.

Notation "'do' x <- m ; k" := (bind m (λ x, k))
  (at level 10, x name, m at level 100, k at level 200,
   format "'[v' 'do'  x  <-  m ; '/' k ']'").
Notation "'do_' m ; k" := (bind m (λ _, k))
  (at level 10, m at level 100, k at level 200,
   format "'[v' 'do_'  m ; '/' k ']'").

Definition alloc (o : obj) : M loc := λ h, Ok (length h) (h ++ [o]).

Definition read (l : loc) : M obj :=
  λ h, match h !! l with
       | Some o => Ok o h
       | None => Raise BadRef
       end.

Definition write (l : loc) (o : obj) : M unit :=
  λ h, match h !! l with
       | Some _ => Ok tt (<[l := o]> h)
       | None => Raise BadRef
       end.

(** [for x in xs: body(x)] *)
Fixpoint for_each {A} (body : A → M unit) (xs : list A) : M unit :=
  match xs with
  | [] => ret tt
  | x :: xs' => do_ body x; for_each body xs'
  end.

(** [[f(x) for x in xs]] *)
Fixpoint map_m {A B} (f : A → M B) (xs : list A) : M (list B) :=
  match xs with
  | [] => ret []
  | x :: xs' => do y <- f x; do ys <- map_m f xs'; ret (y :: ys)
  end.

(** [set()] and [{}] *)
Definition new_set : M loc := alloc (OSet ∅).
Definition new_dict : M loc := alloc (ODict ∅).

(** [d.setdefault(k, v)] *)
Definition dict_setdefault (d : loc) (k : Z) (v : loc) : M loc :=
  do o <- read d;
  match o with
  | ODict m =>
      match m !! k with
      | Some l => ret l
      | None => do_ write d (ODict (<[k := v]> m)); ret v
      end
  | _ => raise BadRef
  end.

(** [d.get(k, v)] *)
Definition dict_get (d : loc) (k : Z) (v : loc) : M loc :=
  do o <- read d;
  match o with
  | ODict m => ret (default v (m !! k))
  | _ => raise BadRef
  end.

(** [s.add(x)] *)
Definition set_add (s : loc) (x : Z) : M unit :=
  do o <- read s;
  match o with
  | OSet e => write s (OSet ({[x]} ∪ e))
  | _ => raise BadRef
  end.

(** [len(s)] *)
Definition set_len (s : loc) : M Z :=
  do o <- read s;
  match o with
  | OSet e => ret (Z.of_nat (size e))
  | _ => raise BadRef
  end.

(** Lines 152-180 with [supported], [opposed] and every [set()] as
    objects of the store. *)
Definition compute_legislator_summary (legislators : list Legislator)
    (vote_results : list VoteResult) (votes : gmap Z Vote)
    : M (list LegislatorRow) :=
  do supported <- new_dict;
  do opposed <- new_dict;
  do_ for_each (λ result,
        match votes !! vote_id result with
        | None => ret tt
        | Some vote =>
            if vote_type result =? 1 then
              do e <- new_set;
              do s <- dict_setdefault supported (legislator_id result) e;
              set_add s (vote_bill_id vote)
            else if vote_type result =? 2 then
              do e <- new_set;
              do s <- dict_setdefault opposed (legislator_id result) e;
              set_add s (vote_bill_id vote)
            else ret tt
        end) vote_results;
  map_m (λ legislator,
      do e1 <- new_set;
      do s1 <- dict_get supported (leg_id legislator) e1;
      do n1 <- set_len s1;
      do e2 <- new_set;
      do s2 <- dict_get opposed (leg_id legislator) e2;
      do n2 <- set_len s2;
      ret {| lr_id := leg_id legislator;
             lr_name := leg_name legislator;
             num_supported_bills := n1;
             num_opposed_bills := n2 |})
    (sorted leg_id legislators).

(** Lines 183-220 in the same way; [legislator_by_id] is built once and
    only read, it stays a value. *)
Definition compute_bill_summary (bills : list Bill)
    (legislators : list Legislator) (vote_results : list VoteResult)
    (votes : gmap Z Vote) : M (list BillRow) :=
  do supporters <- new_dict;
  do opposers <- new_dict;
  do_ for_each (λ result,
        match votes !! vote_id result with
        | None => ret tt
        | Some vote =>
            if vote_type result =? 1 then
              do e <- new_set;
              do s <- dict_setdefault supporters (vote_bill_id vote) e;
              set_add s (legislator_id result)
            else if vote_type result =? 2 then
              do e <- new_set;
              do s <- dict_setdefault opposers (vote_bill_id vote) e;
              set_add s (legislator_id result)
            else ret tt
        end) vote_results;
  let by_id := legislator_by_id legislators in
  map_m (λ bill,
      let sponsor_name := sponsor_name_of by_id bill in
      do e1 <- new_set;
      do s1 <- dict_get supporters (bill_id_of bill) e1;
      do n1 <- set_len s1;
      do e2 <- new_set;
      do s2 <- dict_get opposers (bill_id_of bill) e2;
      do n2 <- set_len s2;
      ret {| br_id := bill_id_of bill;
             br_title := bill_title bill;
             supporter_count := n1;
             opposer_count := n2;
             primary_sponsor := sponsor_name |})
    (sorted bill_id_of bills).

(** [require_exists(path)] followed by reading the file. *)
Definition require_exists {A} (file : option A) : M A :=
  match file with
  | Some rows => ret rows
  | None => raise (Exit 1)
  end.

(** Lines 250-265. *)
Definition load_legislator_lookup (data_dir : DataDir) : M (gmap Z string) :=
  do rows <- require_exists (legislators_csv data_dir);
  ret (fold_left (λ d leg, <[leg_id leg := leg_name leg]> d)
         (load_legislators rows) ∅).

Definition load_bill_lookup (data_dir : DataDir) : M (gmap Z Bill) :=
  do rows <- require_exists (bills_csv data_dir);
  ret (fold_left (λ d bill, <[bill_id_of bill := bill]> d) (load_bills rows) ∅).

Definition load_vote_lookup (data_dir : DataDir) : M (gmap Z Vote) :=
  do rows <- require_exists (votes_csv data_dir);
  ret (load_votes rows).

(** Reading a raw row through its reference. *)
Definition read_raw (row : loc) : M RawRow :=
  do o <- read row;
  match o with
  | ORaw r => ret r
  | _ => raise BadRef
  end.

(** [dict(row)]: a new object with the same items. *)
Definition dict_copy (row : loc) : M loc :=
  do o <- read row;
  match o with
  | ORaw r => alloc (ORow (prod_map id VStr <$> r))
  | ORow r => alloc (ORow r)
  | _ => raise BadRef
  end.

(** [row[k] = v] *)
Definition setitem (row : loc) (k : string) (v : pyval) : M unit :=
  do o <- read row;
  match o with
  | ORow r => write row (ORow (row_set r k v))
  | _ => raise BadRef
  end.

(** The three inner [enrich] functions of lines 276-321. *)
Definition enrich_bill (legislators : gmap Z string) (row : loc) : M loc :=
  do r <- read_raw row;
  let sponsor_id := parse_int (sponsor_id_raw r) in
  let sponsor_name :=
    match sponsor_id with
    | None => "Unknown"
    | Some sid =>
        if sid =? 0 then "Unknown" else default "Unknown" (legislators !! sid)
    end in
  do new_row <- dict_copy row;
  do_ setitem new_row "sponsor_name" (VStr sponsor_name);
  ret new_row.

Definition enrich_vote (bills : gmap Z Bill) (row : loc) : M loc :=
  do r <- read_raw row;
  let bill_id := parse_int (row_get r "bill_id") in
  let bill_title :=
    match bill_id ≫= (bills !!.) with
    | Some bill => bill_title bill
    | None => "Unknown"
    end in
  do new_row <- dict_copy row;
  do_ setitem new_row "bill_title" (VStr bill_title);
  ret new_row.

Definition enrich_vote_result (legislators : gmap Z string)
    (bills : gmap Z Bill) (votes : gmap Z Vote) (row : loc) : M loc :=
  do r <- read_raw row;
  let legislator_id := parse_int (row_get r "legislator_id") in
  let vote_id := parse_int (row_get r "vote_id") in
  let vote := vote_id ≫= (votes !!.) in
  let bill_id := vote_bill_id <$> vote in
  do new_row <- dict_copy row;
  do_ setitem new_row "legislator_name"
        (VStr (default "Unknown" (legislator_id ≫= (legislators !!.))));
  do_ setitem new_row "bill_id"
        (match bill_id with Some b => VInt b | None => VStr "" end);
  do_ setitem new_row "bill_title"
        (VStr (match bill_id ≫= (bills !!.) with
               | Some bill => bill_title bill
               | None => "Unknown"
               end));
  ret new_row.

(** Lines 268-325. *)
Definition enrich_rows (rows : list loc) (category : string)
    (data_dir : DataDir) : M (list loc * list string) :=
  if String.eqb category "bills" then
    do legislators <- load_legislator_lookup data_dir;
    let extra_fields := ["sponsor_name"] in
    do rows' <- map_m (enrich_bill legislators) rows;
    ret (rows', extra_fields)
  else if String.eqb category "votes" then
    do bills <- load_bill_lookup data_dir;
    let extra_fields := ["bill_title"] in
    do rows' <- map_m (enrich_vote bills) rows;
    ret (rows', extra_fields)
  else if String.eqb category "vote_results" then
    do legislators <- load_legislator_lookup data_dir;
    do bills <- load_bill_lookup data_dir;
    do votes <- load_vote_lookup data_dir;
    let extra_fields := ["legislator_name"; "bill_id"; "bill_title"] in
    do rows' <- map_m (enrich_vote_result legislators bills votes) rows;
    ret (rows', extra_fields)
  else ret (rows, []).

(** [list(row.keys())] through a reference. *)
Definition keys (row : loc) : M (list string) :=
  do o <- read row;
  match o with
  | ORaw r => ret (row_keys r)
  | ORow r => ret (row_keys r)
  | _ => raise BadRef
  end.

(** What [preview_dataset] hands to the table: the rows and the column
    names, or nothing when the file has no row. *)
Inductive preview :=
| NoRows
| RawPreview (rows : list loc) (fieldnames : list string)
| LegislatorPreview (rows : list LegislatorRow) (fieldnames : list string)
| BillPreview (rows : list BillRow) (fieldnames : list string).

(** Lines 355-407, up to the point where the table is drawn. *)
Definition preview_dataset (data_dir : DataDir) (category : string)
    (limit : nat) : M preview :=
  match dataset data_dir category with
  | Some file =>
      do content <- require_exists file;
      do rows <- map_m (λ r, alloc (ORaw r)) (take limit content);
      match rows with
      | [] => ret NoRows
      | row0 :: _ =>
          do base_fieldnames <- keys row0;
          do enriched <- enrich_rows rows category data_dir;
          let rows' := enriched.1 in
          let extra_fields := enriched.2 in
          let fieldnames :=
            base_fieldnames ++ filter (λ f, f ∉ base_fieldnames) extra_fields in
          ret (RawPreview rows' fieldnames)
      end
  | None =>
      if String.eqb category "legislator_summary" then
        do legislators_rows <- require_exists (legislators_csv data_dir);
        do votes_rows <- require_exists (votes_csv data_dir);
        do vote_results_rows <- require_exists (vote_results_csv data_dir);
        let legislators := load_legislators legislators_rows in
        let vote_results := load_vote_results vote_results_rows in
        let votes := load_votes votes_rows in
        do rows <- compute_legislator_summary legislators vote_results votes;
        ret (LegislatorPreview (take limit rows)
               ["id"; "name"; "num_supported_bills"; "num_opposed_bills"])
      else if String.eqb category "bill_summary" then
        do legislators_rows <- require_exists (legislators_csv data_dir);
        do bills_rows <- require_exists (bills_csv data_dir);
        do votes_rows <- require_exists (votes_csv data_dir);
        do vote_results_rows <- require_exists (vote_results_csv data_dir);
        let legislators := load_legislators legislators_rows in
        let bills := load_bills bills_rows in
        let vote_results := load_vote_results vote_results_rows in
        let votes := load_votes votes_rows in
        do rows <- compute_bill_summary bills legislators vote_results votes;
        ret (BillPreview (take limit rows)
               ["id"; "title"; "supporter_count"; "opposer_count";
                "primary_sponsor"])
      else raise (Exit 1)
  end.

(** The computing part of [summarize] (lines 446-455): the four files are
    required, loaded, and the two summaries computed one after the other. *)
Definition summarize (data_dir : DataDir)
    : M (list LegislatorRow * list BillRow) :=
  do bills_rows <- require_exists (bills_csv data_dir);
  do legislators_rows <- require_exists (legislators_csv data_dir);
  do votes_rows <- require_exists (votes_csv data_dir);
  do vote_results_rows <- require_exists (vote_results_csv data_dir);
  let legislators := load_legislators legislators_rows in
  let bills := load_bills bills_rows in
  let votes := load_votes votes_rows in
  let vote_results := load_vote_results vote_results_rows in
  do legislator_rows <-
    compute_legislator_summary legislators vote_results votes;
  do bill_rows <- compute_bill_summary bills legislators vote_results votes;
  ret (legislator_rows, bill_rows).


End Store.

(** ** The end-to-end example *)

Definition ex_legislators : list Legislator :=
  [mkLegislator 1 "Alice"; mkLegislator 2 "Bob"].
Definition ex_bills : list Bill := [mkBill 10 "Act A" (Some 1)].
Definition ex_votes : gmap Z Vote := {[ 100 := mkVote 100 10 ]}.
Definition ex_vote_results : list VoteResult :=
  [mkVoteResult 1 100 1; mkVoteResult 2 100 2].

(** ** Vocabulary of the properties *)

(** The two loops of lines 161-168 and 193-200 are one loop in which the
    key and the element of the set swap roles. *)
Definition tally_step (key elem : VoteResult → Vote → Z) (votes : gmap Z Vote)
    (acc : gmap Z (gset Z) * gmap Z (gset Z)) (result : VoteResult)
    : gmap Z (gset Z) * gmap Z (gset Z) :=
  match votes !! vote_id result with
  | None => acc
  | Some vote =>
      if vote_type result =? 1 then
        (setdefault_add (key result vote) (elem result vote) acc.1, acc.2)
      else if vote_type result =? 2 then
        (acc.1, setdefault_add (key result vote) (elem result vote) acc.2)
      else acc
  end.

(** The elements the results of type [ty] contribute under key [k], one
    entry per result, in order. *)
Definition contributions (key elem : VoteResult → Vote → Z)
    (votes : gmap Z Vote) (ty k : Z) (vote_results : list VoteResult) : list Z :=
  omap (λ result,
    match votes !! vote_id result with
    | Some vote =>
        if (vote_type result =? ty) && (key result vote =? k)
        then Some (elem result vote) else None
    | None => None
    end) vote_results.

(** The bill ids that the results of legislator [l] with vote type [ty]
    resolve to, one entry per result. *)
Definition bills_voted (votes : gmap Z Vote) (ty l : Z)
    (vote_results : list VoteResult) : list Z :=
  contributions (λ r _, legislator_id r) (λ _ v, vote_bill_id v)
    votes ty l vote_results.

(** The legislators of the results with vote type [ty] that resolve to bill
    [b], one entry per result. *)
Definition legislators_voting (votes : gmap Z Vote) (ty b : Z)
    (vote_results : list VoteResult) : list Z :=
  contributions (λ _ v, vote_bill_id v) (λ r _, legislator_id r)
    votes ty b vote_results.

(** The legislators of all results that resolve to bill [b], whatever the
    vote type. *)
Definition voters (votes : gmap Z Vote) (b : Z)
    (vote_results : list VoteResult) : list Z :=
  omap (λ result,
    match votes !! vote_id result with
    | Some vote =>
        if vote_bill_id vote =? b then Some (legislator_id result) else None
    | None => None
    end) vote_results.

(** The legislators with a result of type 1 and a result of type 2 that
    both resolve to bill [b]. *)
Definition both_ways (votes : gmap Z Vote) (b : Z)
    (vote_results : list VoteResult) : list Z :=
  filter (λ l, l ∈ legislators_voting votes 2 b vote_results)
    (legislators_voting votes 1 b vote_results).

(** The number of distinct entries of a list. *)
Definition distinct (l : list Z) : Z := Z.of_nat (length (remove_dups l)).

(** *** The store while a summary is computed

    [dict_rep h0 h d m]: in the store [h] the dictionary of references [d]
    stands for the dictionary of sets [m]; every set it refers to was
    allocated after [h0], and no set is referred to twice. *)
Record dict_rep (h0 h : Store.heap) (d : gmap Z Store.loc)
    (m : gmap Z (gset Z)) : Prop := {
  rep_sets : ∀ k,
    match d !! k with
    | Some l =>
        (length h0 ≤ l)%nat ∧ ∃ s, h !! l = Some (Store.OSet s) ∧ m !! k = Some s
    | None => m !! k = None
    end;
  rep_inj : ∀ k1 k2 l, d !! k1 = Some l → d !! k2 = Some l → k1 = k2
}.

(** [tally_inv h0 h a b da db ma mb]: the store [h] extends [h0], holds the
    two dictionaries at [a] and [b], both allocated after [h0], and no set
    is shared between them. *)
Record tally_inv (h0 h : Store.heap) (a b : Store.loc)
    (da db : gmap Z Store.loc) (ma mb : gmap Z (gset Z)) : Prop := {
  inv_prefix : h0 `prefix_of` h;
  inv_a : h !! a = Some (Store.ODict da);
  inv_b : h !! b = Some (Store.ODict db);
  inv_a_new : (length h0 ≤ a)%nat;
  inv_b_new : (length h0 ≤ b)%nat;
  inv_ab : a ≠ b;
  inv_rep_a : dict_rep h0 h da ma;
  inv_rep_b : dict_rep h0 h db mb;
  inv_apart : ∀ k1 k2 l, da !! k1 = Some l → db !! k2 = Some l → False
}.

Definition tally_ok (h0 h : Store.heap) (a b : Store.loc)
    (acc : gmap Z (gset Z) * gmap Z (gset Z)) : Prop :=
  ∃ da db, tally_inv h0 h a b da db acc.1 acc.2.

(** *** Rows in the store *)

(** The value of column [k] of the row object at [l]. *)
Definition cell (h : Store.heap) (l : Store.loc) (k : string)
    : option Store.pyval :=
  match h !! l with
  | Some (Store.ORaw r) => Store.VStr <$> row_get r k
  | Some (Store.ORow r) => row_get r k
  | _ => None
  end.

(** The column names of the row object at [l], in order. *)
Definition columns (h : Store.heap) (l : Store.loc) : option (list string) :=
  match h !! l with
  | Some (Store.ORaw r) => Some (row_keys r)
  | Some (Store.ORow r) => Some (row_keys r)
  | _ => None
  end.

(** The categories whose rows [enrich_rows] rebuilds. *)
Definition enriched (category : string) : bool :=
  String.eqb category "bills" || String.eqb category "votes"
  || String.eqb category "vote_results".

(** The field names [enrich_rows] adds for a category. *)
Definition extra_fields (category : string) : list string :=
  if String.eqb category "bills" then ["sponsor_name"]
  else if String.eqb category "votes" then ["bill_title"]
  else if String.eqb category "vote_results" then
    ["legislator_name"; "bill_id"; "bill_title"]
  else [].

(** [row[k1] = v1; ...; row[kn] = vn] *)
Definition row_set_all {V} (row : list (string * V))
    (items : list (string * V)) : list (string * V) :=
  fold_left (λ row item, row_set row item.1 item.2) items row.

(** What each of the three [enrich] functions does to a raw row: it
    allocates a copy and assigns the fields of [extra] in it. *)
Definition enricher (f : Store.loc → Store.M Store.loc)
    (extra : list string) : Prop :=
  ∀ (h : Store.heap) l r,
    h !! l = Some (Store.ORaw r) →
    ∃ items,
      items.*1 = extra
      ∧ f l h
        = Store.Ok (length h)
            (h ++ [Store.ORow
                     (row_set_all (prod_map id Store.VStr <$> r) items)]).



(** A legislator with id 0 who sponsors a bill. *)
Definition zero_legislator_row : RawRow := [("id", "0"); ("name", "Zed")].
Definition zero_sponsor_row : RawRow :=
  [("id", "10"); ("title", "Act A"); ("sponsor_id", "0")].
Definition zero_sponsor_dir : DataDir :=
  mkDataDir (Some [zero_sponsor_row]) (Some [zero_legislator_row])
    (Some []) (Some []).

(** The vote a row of the votes file gives, when both its fields parse
    (lines 127-131). *)
Definition vote_of_row (row : RawRow) : option Vote :=
  match parse_int (row_get row "id"), parse_int (row_get row "bill_id") with
  | Some vote_id, Some bill_id => Some (mkVote vote_id bill_id)
  | _, _ => None
  end.

(** The three names of the sponsor column, in the order they are tried. *)
Definition sponsor_columns : list string :=
  ["Primary Sponsor"; "primary_sponsor"; "sponsor_id"].

(** The six category names. *)
Definition CATEGORIES : list string := DATASETS ++ COMPUTED_PREVIEWS.



(** A directory with one bill and two votes, one of them on a bill that
    is not in the bills file; the other two files are missing. *)
Definition two_votes_dir : DataDir :=
  mkDataDir (Some [[("id", "10"); ("title", "Act A")]]) None
    (Some [[("id", "100"); ("bill_id", "10")];
           [("id", "101"); ("bill_id", "11")]]) None.

(** A bill sponsored by the one legislator of the directory. *)
Definition carol_sponsor_row : RawRow :=
  [("id", "10"); ("title", "Act A"); ("sponsor_id", "7")].
Definition carol_sponsor_dir : DataDir :=
  mkDataDir (Some [carol_sponsor_row]) (Some [[("id", "7"); ("name", "Carol")]])
    (Some []) (Some []).

(** The bound of the two counts of a bill by its distinct voters, as a
    statement about every input. *)
Definition counts_bounded_by_voters : Prop :=
  ∀ bills legislators vote_results votes row,
    row ∈ compute_bill_summary bills legislators vote_results votes →
    supporter_count row + opposer_count row
    ≤ distinct (voters votes (br_id row) vote_results).

(** One legislator, one vote, a result of each type. *)
Definition both_vote_results : list VoteResult :=
  [mkVoteResult 1 100 1; mkVoteResult 1 100 2; mkVoteResult 1 100 1].

(** After [simpl], write the maps over lists as [<$>] again. *)
Local Ltac refold_fmap :=
  repeat match goal with
         | |- context [list_fmap ?A ?B ?f ?l] =>
             change (list_fmap A B f l) with (f <$> l)
         | H : context [list_fmap ?A ?B ?f ?l] |- _ =>
             change (list_fmap A B f l) with (f <$> l) in H
         end.

(** C2: on the example of the specification the legislator summary is
    (1,Alice,1,0),(2,Bob,0,1) and the bill summary is (10,Act A,1,1,Alice). *)
Theorem example_summaries :
  compute_legislator_summary ex_legislators ex_vote_results ex_votes
    = [mkLegislatorRow 1 "Alice" 1 0; mkLegislatorRow 2 "Bob" 0 1]
  ∧ compute_bill_summary ex_bills ex_legislators ex_vote_results ex_votes
    = [mkBillRow 10 "Act A" 1 1 "Alice"].
Proof. split; vm_compute; reflexivity. Qed.

(** ** The sort *)

Section sorting.
Context {A : Type} (key : A → Z).

Lemma sorted_insert_perm x l : sorted_insert key x l ≡ₚ x :: l.
Proof.
  induction l as [|y l IH]; simpl; [done|].
  destruct (key x <=? key y); [done|].
  rewrite IH. apply perm_swap.
Qed.

Lemma sorted_perm l : sorted key l ≡ₚ l.
Proof.
  induction l as [|x l IH]; simpl; [done|].
  by rewrite sorted_insert_perm, IH.
Qed.

Lemma sorted_insert_ascending x l :
  StronglySorted (λ a b, key a ≤ key b) l →
  StronglySorted (λ a b, key a ≤ key b) (sorted_insert key x l).
Proof.
  induction 1 as [|y l Hl IH Hy]; simpl.
  - repeat constructor.
  - destruct (Z.leb_spec (key x) (key y)) as [Hle|Hgt].
    + constructor; [by constructor|].
      constructor; [done|].
      eapply Forall_impl; [exact Hy|]. simpl. intros; lia.
    + constructor; [done|].
      rewrite sorted_insert_perm. constructor; [lia|done].
Qed.

Lemma sorted_ascending l :
  StronglySorted (λ a b, key a ≤ key b) (sorted key l).
Proof.
  induction l as [|x l IH]; simpl; [constructor|].
  by apply sorted_insert_ascending.
Qed.

(** Stability: records with the same key keep their relative order. *)
Lemma sorted_insert_stable k x l :
  (∀ y, y ∈ l → key y = k → key x ≤ k) →
  filter (λ y, key y = k) (sorted_insert key x l)
  = filter (λ y, key y = k) (x :: l).
Proof.
  induction l as [|y l IH]; intros Hx; simpl; [done|].
  destruct (Z.leb_spec (key x) (key y)) as [Hle|Hgt]; [done|].
  rewrite (filter_cons _ y), IH
    by (intros y' ? ?; apply (Hx y'); [by right|done]).
  rewrite !(filter_cons _ x), !(filter_cons _ y).
  destruct (decide (key x = k)) as [Hxk|]; [|done].
  destruct (decide (key y = k)) as [Hyk|]; [|done].
  specialize (Hx y (list_elem_of_here _ _) Hyk). lia.
Qed.

Lemma sorted_stable k l :
  filter (λ y, key y = k) (sorted key l) = filter (λ y, key y = k) l.
Proof.
  induction l as [|x l IH]; simpl; [done|].
  destruct (decide (key x = k)) as [Hxk|Hxk].
  - rewrite sorted_insert_stable by (intros; lia).
    by rewrite !(filter_cons _ x), IH.
  - assert (∀ l', filter (λ y, key y = k) (sorted_insert key x l')
                  = filter (λ y, key y = k) l') as Hskip.
    { induction l' as [|y l' IH']; simpl.
      - by rewrite filter_cons_False.
      - destruct (key x <=? key y).
        + by rewrite (filter_cons_False _ x).
        + by rewrite !(filter_cons _ y), IH'. }
    by rewrite Hskip, IH, filter_cons_False.
Qed.
End sorting.

(** ** What the accumulator dictionaries hold *)

Lemma distinct_size (l : list Z) :
  distinct l = Z.of_nat (size (list_to_set l : gset Z)).
Proof.
  unfold distinct. f_equal.
  rewrite <- (size_list_to_set (C := gset Z)) by apply NoDup_remove_dups.
  f_equal. apply set_eq. intros x.
  by rewrite !elem_of_list_to_set, elem_of_remove_dups.
Qed.

Lemma setdefault_add_lookup k x d k' :
  default ∅ (setdefault_add k x d !! k')
  = if decide (k = k') then {[x]} ∪ default ∅ (d !! k')
    else default ∅ (d !! k').
Proof.
  unfold setdefault_add. destruct (decide (k = k')) as [->|Hne].
  - by rewrite lookup_insert_eq.
  - by rewrite lookup_insert_ne.
Qed.

Section tally.
Context (key elem : VoteResult → Vote → Z) (votes : gmap Z Vote).

Lemma contributions_cons ty k r vrs :
  contributions key elem votes ty k (r :: vrs)
  = contributions key elem votes ty k [r]
    ++ contributions key elem votes ty k vrs.
Proof.
  unfold contributions. simpl.
  destruct (votes !! vote_id r) as [v|]; [|done].
  by destruct ((vote_type r =? ty) && (key r v =? k)).
Qed.

Lemma tally_step_lookup acc r k :
  default ∅ ((tally_step key elem votes acc r).1 !! k)
  = default ∅ (acc.1 !! k)
    ∪ list_to_set (contributions key elem votes 1 k [r])
  ∧ default ∅ ((tally_step key elem votes acc r).2 !! k)
  = default ∅ (acc.2 !! k)
    ∪ list_to_set (contributions key elem votes 2 k [r]).
Proof.
  unfold tally_step, contributions. simpl.
  destruct (votes !! vote_id r) as [v|]; simpl; [|set_solver].
  destruct (Z.eqb_spec (vote_type r) 1) as [H1|H1].
  - destruct (Z.eqb_spec (vote_type r) 2) as [H2|_]; [lia|]. simpl.
    rewrite setdefault_add_lookup.
    destruct (Z.eqb_spec (key r v) k); case_decide; try done; set_solver.
  - destruct (Z.eqb_spec (vote_type r) 2) as [H2|_]; simpl; [|set_solver].
    rewrite setdefault_add_lookup.
    destruct (Z.eqb_spec (key r v) k); case_decide; try done; set_solver.
Qed.

Lemma tally_fold_lookup vrs acc k :
  default ∅ ((fold_left (tally_step key elem votes) vrs acc).1 !! k)
  = default ∅ (acc.1 !! k)
    ∪ list_to_set (contributions key elem votes 1 k vrs)
  ∧ default ∅ ((fold_left (tally_step key elem votes) vrs acc).2 !! k)
  = default ∅ (acc.2 !! k)
    ∪ list_to_set (contributions key elem votes 2 k vrs).
Proof.
  revert acc. induction vrs as [|r vrs IH]; intros acc; cbn [fold_left].
  - split; set_solver.
  - destruct (IH (tally_step key elem votes acc r)) as [-> ->].
    destruct (tally_step_lookup acc r k) as [-> ->].
    rewrite !(contributions_cons _ _ r vrs), !list_to_set_app_L.
    split; set_solver.
Qed.

Lemma tally_lookup vrs k :
  default ∅ ((fold_left (tally_step key elem votes) vrs (∅, ∅)).1 !! k)
  = list_to_set (contributions key elem votes 1 k vrs)
  ∧ default ∅ ((fold_left (tally_step key elem votes) vrs (∅, ∅)).2 !! k)
  = list_to_set (contributions key elem votes 2 k vrs).
Proof.
  destruct (tally_fold_lookup vrs (∅, ∅) k) as [-> ->]. simpl.
  rewrite lookup_empty. simpl. split; set_solver.
Qed.

Lemma tally_len_get vrs k :
  len_get (fold_left (tally_step key elem votes) vrs (∅, ∅)).1 k
  = distinct (contributions key elem votes 1 k vrs)
  ∧ len_get (fold_left (tally_step key elem votes) vrs (∅, ∅)).2 k
  = distinct (contributions key elem votes 2 k vrs).
Proof.
  unfold len_get. destruct (tally_lookup vrs k) as [-> ->].
  by rewrite !distinct_size.
Qed.

(** A result that resolves to no vote leaves the accumulators alone. *)
Lemma tally_step_unresolved acc r :
  votes !! vote_id r = None → tally_step key elem votes acc r = acc.
Proof. intros H. unfold tally_step. by rewrite H. Qed.
End tally.

Lemma legislator_tally_eq vrs votes :
  legislator_tally vrs votes
  = fold_left (tally_step (λ r _, legislator_id r) (λ _ v, vote_bill_id v) votes)
      vrs (∅, ∅).
Proof. reflexivity. Qed.

Lemma bill_tally_eq vrs votes :
  bill_tally vrs votes
  = fold_left (tally_step (λ _ v, vote_bill_id v) (λ r _, legislator_id r) votes)
      vrs (∅, ∅).
Proof. reflexivity. Qed.

Lemma compute_legislator_summary_eq legislators vrs votes :
  compute_legislator_summary legislators vrs votes
  = map (legislator_row (legislator_tally vrs votes).1
           (legislator_tally vrs votes).2) (sorted leg_id legislators).
Proof.
  unfold compute_legislator_summary. by destruct (legislator_tally vrs votes).
Qed.

Lemma compute_bill_summary_eq bills legislators vrs votes :
  compute_bill_summary bills legislators vrs votes
  = map (bill_row (bill_tally vrs votes).1 (bill_tally vrs votes).2
           (legislator_by_id legislators)) (sorted bill_id_of bills).
Proof.
  unfold compute_bill_summary. by destruct (bill_tally vrs votes).
Qed.

(** The counts of a legislator's row. *)
Lemma legislator_row_counts legislators vrs votes row :
  row ∈ compute_legislator_summary legislators vrs votes →
  num_supported_bills row = distinct (bills_voted votes 1 (lr_id row) vrs)
  ∧ num_opposed_bills row = distinct (bills_voted votes 2 (lr_id row) vrs).
Proof.
  rewrite compute_legislator_summary_eq, legislator_tally_eq.
  intros (leg & -> & _)%list_elem_of_fmap. simpl.
  apply tally_len_get.
Qed.

(** The counts of a bill's row. *)
Lemma bill_row_counts bills legislators vrs votes row :
  row ∈ compute_bill_summary bills legislators vrs votes →
  supporter_count row = distinct (legislators_voting votes 1 (br_id row) vrs)
  ∧ opposer_count row = distinct (legislators_voting votes 2 (br_id row) vrs).
Proof.
  rewrite compute_bill_summary_eq, bill_tally_eq.
  intros (bill & -> & _)%list_elem_of_fmap. simpl.
  apply tally_len_get.
Qed.

(** ** Properties of the two summaries *)

(** C1: the supported and opposed sets of a legislator (the supporter and
    opposer sets of a bill) are the sets of the bill ids (legislator ids)
    their results resolve to, so each is counted once however many results
    resolve to it; the two sets are filled independently, and a legislator
    with a result of type 1 and one of type 2 on the same vote is in both. *)
Theorem aggregation_deduplicates legislators bills vrs votes :
  (∀ l, default ∅ ((legislator_tally vrs votes).1 !! l)
        = list_to_set (bills_voted votes 1 l vrs)
      ∧ default ∅ ((legislator_tally vrs votes).2 !! l)
        = list_to_set (bills_voted votes 2 l vrs))
  ∧ (∀ b, default ∅ ((bill_tally vrs votes).1 !! b)
          = list_to_set (legislators_voting votes 1 b vrs)
        ∧ default ∅ ((bill_tally vrs votes).2 !! b)
          = list_to_set (legislators_voting votes 2 b vrs))
  ∧ (∀ row, row ∈ compute_legislator_summary legislators vrs votes →
       num_supported_bills row = distinct (bills_voted votes 1 (lr_id row) vrs)
       ∧ num_opposed_bills row = distinct (bills_voted votes 2 (lr_id row) vrs))
  ∧ (∀ row, row ∈ compute_bill_summary bills legislators vrs votes →
       supporter_count row
       = distinct (legislators_voting votes 1 (br_id row) vrs)
       ∧ opposer_count row
         = distinct (legislators_voting votes 2 (br_id row) vrs))
  ∧ (∀ r1 r2 vote,
       r1 ∈ vrs → r2 ∈ vrs →
       legislator_id r1 = legislator_id r2 → vote_id r1 = vote_id r2 →
       vote_type r1 = 1 → vote_type r2 = 2 →
       votes !! vote_id r1 = Some vote →
       legislator_id r1 ∈ default ∅ ((bill_tally vrs votes).1 !! vote_bill_id vote)
       ∧ legislator_id r1
           ∈ default ∅ ((bill_tally vrs votes).2 !! vote_bill_id vote)
       ∧ vote_bill_id vote
           ∈ default ∅ ((legislator_tally vrs votes).1 !! legislator_id r1)
       ∧ vote_bill_id vote
           ∈ default ∅ ((legislator_tally vrs votes).2 !! legislator_id r1)).
Proof.
  split; [intros l; rewrite legislator_tally_eq; apply tally_lookup|].
  split; [intros b; rewrite bill_tally_eq; apply tally_lookup|].
  split; [intros row; apply legislator_row_counts|].
  split; [intros row; apply bill_row_counts|].
  intros r1 r2 vote Hr1 Hr2 Hleg Hvid Ht1 Ht2 Hvote.
  rewrite legislator_tally_eq, bill_tally_eq.
  destruct (tally_lookup (λ _ v, vote_bill_id v) (λ r _, legislator_id r)
              votes vrs (vote_bill_id vote)) as [-> ->].
  destruct (tally_lookup (λ r _, legislator_id r) (λ _ v, vote_bill_id v)
              votes vrs (legislator_id r1)) as [-> ->].
  rewrite !elem_of_list_to_set. unfold contributions.
  rewrite !list_elem_of_omap.
  repeat split.
  - exists r1. split; [done|]. by rewrite Hvote, Ht1, !Z.eqb_refl.
  - exists r2. split; [done|].
    by rewrite <- Hvid, Hvote, Ht2, !Z.eqb_refl, Hleg.
  - exists r1. split; [done|]. by rewrite Hvote, Ht1, !Z.eqb_refl.
  - exists r2. split; [done|].
    by rewrite <- Hvid, Hvote, Ht2, <- Hleg, !Z.eqb_refl.
Qed.

Lemma aggregation_deduplicates_witness :
  1 ∈ default ∅ ((bill_tally both_vote_results ex_votes).1 !! 10)
  ∧ 1 ∈ default ∅ ((bill_tally both_vote_results ex_votes).2 !! 10)
  ∧ 10 ∈ default ∅ ((legislator_tally both_vote_results ex_votes).1 !! 1)
  ∧ 10 ∈ default ∅ ((legislator_tally both_vote_results ex_votes).2 !! 1).
Proof.
  destruct (aggregation_deduplicates ex_legislators ex_bills
              both_vote_results ex_votes) as (_ & _ & _ & _ & H).
  apply (H (mkVoteResult 1 100 1) (mkVoteResult 1 100 2) (mkVote 100 10));
    try reflexivity.
  - apply list_elem_of_here.
  - apply list_elem_of_further, list_elem_of_here.
Defined.

Lemma StronglySorted_fmap {A B} (R : A → A → Prop) (R' : B → B → Prop)
    (f : A → B) l :
  (∀ a b, R a b → R' (f a) (f b)) →
  StronglySorted R l → StronglySorted R' (f <$> l).
Proof.
  intros HR. induction 1 as [|a l Hl IH Ha]; simpl; constructor; [done|].
  apply Forall_fmap. eapply Forall_impl; [exact Ha|]. intros b. apply HR.
Qed.

Lemma contributions_nil key elem votes ty k vrs :
  (∀ r v, r ∈ vrs → votes !! vote_id r = Some v → key r v ≠ k) →
  contributions key elem votes ty k vrs = [].
Proof.
  induction vrs as [|r vrs IH]; intros H; [done|].
  rewrite contributions_cons, IH
    by (intros r' v' ?; apply H; by apply list_elem_of_further).
  unfold contributions. simpl.
  destruct (votes !! vote_id r) as [v|] eqn:Hv; [|done].
  specialize (H r v (list_elem_of_here _ _) Hv).
  destruct (Z.eqb_spec (key r v) k); [done|].
  by rewrite andb_false_r.
Qed.

(** C3: the legislator summary has one row for every loaded legislator,
    whether or not a vote result refers to it, in ascending order of id;
    a legislator no vote result refers to has both counts at zero. *)
Theorem legislator_summary_total legislators vrs votes :
  (λ row, (lr_id row, lr_name row))
    <$> compute_legislator_summary legislators vrs votes
  ≡ₚ (λ l, (leg_id l, leg_name l)) <$> legislators
  ∧ StronglySorted (λ a b, lr_id a ≤ lr_id b)
      (compute_legislator_summary legislators vrs votes)
  ∧ ∀ row, row ∈ compute_legislator_summary legislators vrs votes →
      (∀ r, r ∈ vrs → legislator_id r ≠ lr_id row) →
      num_supported_bills row = 0 ∧ num_opposed_bills row = 0.
Proof.
  split; [|split].
  - rewrite compute_legislator_summary_eq.
    change (map ?f ?l) with (f <$> l).
    rewrite <- list_fmap_compose.
    rewrite (sorted_perm leg_id legislators). done.
  - rewrite compute_legislator_summary_eq.
    apply (StronglySorted_fmap (λ a b, leg_id a ≤ leg_id b)); [done|].
    apply sorted_ascending.
  - intros row Hrow Hnone.
    destruct (legislator_row_counts _ _ _ _ Hrow) as [-> ->].
    unfold bills_voted.
    rewrite !contributions_nil by (intros r v Hr _; by apply Hnone).
    done.
Qed.

Lemma legislator_summary_total_witness :
  num_supported_bills (mkLegislatorRow 2 "Bob" 0 0) = 0
  ∧ num_opposed_bills (mkLegislatorRow 2 "Bob" 0 0) = 0.
Proof.
  destruct (legislator_summary_total ex_legislators both_vote_results ex_votes)
    as (_ & _ & H).
  apply H.
  - apply list_elem_of_further, list_elem_of_here.
  - intros r Hr. unfold both_vote_results in Hr.
    repeat (apply elem_of_cons in Hr as [->|Hr]; [simpl; lia|]).
    by apply not_elem_of_nil in Hr.
Defined.

(** ** Counts of a bill against its voters *)

Lemma size_union_intersection (X Y : gset Z) :
  (size X + size Y = size (X ∪ Y) + size (X ∩ Y))%nat.
Proof.
  rewrite (size_union_alt X Y), (size_difference_alt Y X).
  assert (size (Y ∩ X) ≤ size Y)%nat by (apply subseteq_size; set_solver).
  replace (X ∩ Y) with (Y ∩ X) by set_solver. lia.
Qed.

Lemma legislators_voting_voters votes ty b vrs l :
  l ∈ legislators_voting votes ty b vrs → l ∈ voters votes b vrs.
Proof.
  unfold legislators_voting, contributions, voters.
  rewrite !list_elem_of_omap. intros (r & Hr & H). exists r. split; [done|].
  destruct (votes !! vote_id r) as [v|]; [|done].
  destruct (vote_bill_id v =? b); [|by rewrite andb_false_r in H].
  by destruct (vote_type r =? ty).
Qed.

Lemma both_ways_set votes b vrs :
  (list_to_set (both_ways votes b vrs) : gset Z)
  = list_to_set (legislators_voting votes 1 b vrs)
    ∩ list_to_set (legislators_voting votes 2 b vrs).
Proof.
  apply set_eq. intros l. unfold both_ways.
  rewrite elem_of_intersection, !elem_of_list_to_set, list_elem_of_filter.
  tauto.
Qed.

(** C5 as stated fails: one legislator with a result of each type on one
    bill is counted on both sides, two against one distinct voter. *)
Lemma counts_not_bounded_by_voters : ¬ counts_bounded_by_voters.
Proof.
  intros H.
  specialize (H ex_bills ex_legislators both_vote_results ex_votes
                (mkBillRow 10 "Act A" 1 1 "Alice")).
  assert (mkBillRow 10 "Act A" 1 1 "Alice"
          ∈ compute_bill_summary ex_bills ex_legislators both_vote_results
              ex_votes) as Hin by (vm_compute; apply list_elem_of_here).
  specialize (H Hin). vm_compute in H. by apply H.
Qed.

(** C5, amended: each count of a bill is at most the number of distinct
    legislators with a result resolving to the bill, and their sum is at
    most that number plus the number of distinct legislators with both a
    result of type 1 and a result of type 2 resolving to it; without such
    legislators the sum is at most the number of distinct voters. *)
Theorem counts_bounded bills legislators vrs votes row :
  row ∈ compute_bill_summary bills legislators vrs votes →
  supporter_count row ≤ distinct (voters votes (br_id row) vrs)
  ∧ opposer_count row ≤ distinct (voters votes (br_id row) vrs)
  ∧ supporter_count row + opposer_count row
    ≤ distinct (voters votes (br_id row) vrs)
      + distinct (both_ways votes (br_id row) vrs)
  ∧ (both_ways votes (br_id row) vrs = [] →
     supporter_count row + opposer_count row
     ≤ distinct (voters votes (br_id row) vrs)).
Proof.
  intros Hrow. destruct (bill_row_counts _ _ _ _ _ Hrow) as [-> ->].
  set (b := br_id row).
  rewrite !distinct_size, both_ways_set.
  set (S1 := list_to_set (legislators_voting votes 1 b vrs) : gset Z).
  set (S2 := list_to_set (legislators_voting votes 2 b vrs) : gset Z).
  set (V := list_to_set (voters votes b vrs) : gset Z).
  assert (S1 ⊆ V) as H1.
  { intros l. unfold S1, V. rewrite !elem_of_list_to_set.
    apply legislators_voting_voters. }
  assert (S2 ⊆ V) as H2.
  { intros l. unfold S2, V. rewrite !elem_of_list_to_set.
    apply legislators_voting_voters. }
  pose proof (subseteq_size S1 V H1).
  pose proof (subseteq_size S2 V H2).
  assert (size (S1 ∪ S2) ≤ size V)%nat
    by (apply subseteq_size, union_least; done).
  pose proof (size_union_intersection S1 S2).
  repeat split; try lia.
  intros Hnone.
  assert (S1 ∩ S2 = ∅) as Hempty.
  { unfold S1, S2. by rewrite <- both_ways_set, Hnone. }
  rewrite Hempty, size_empty in *. lia.
Qed.

Lemma counts_bounded_witness :
  supporter_count (mkBillRow 10 "Act A" 1 1 "Alice")
  + opposer_count (mkBillRow 10 "Act A" 1 1 "Alice")
  ≤ distinct (voters ex_votes 10 ex_vote_results).
Proof.
  apply (counts_bounded ex_bills ex_legislators ex_vote_results ex_votes
           (mkBillRow 10 "Act A" 1 1 "Alice")).
  - vm_compute. apply list_elem_of_here.
  - reflexivity.
Defined.

(** ** Sponsor resolution *)

Lemma legislator_by_id_snoc legislators leg :
  legislator_by_id (legislators ++ [leg])
  = <[leg_id leg := leg]> (legislator_by_id legislators).
Proof. unfold legislator_by_id. by rewrite fold_left_app. Qed.

(** The dictionary holds, under each id, the last legislator loaded with
    that id. *)
Lemma legislator_by_id_lookup legislators sid :
  legislator_by_id legislators !! sid
  = last (filter (λ leg, leg_id leg = sid) legislators).
Proof.
  induction legislators as [|leg legislators IH] using rev_ind; [done|].
  rewrite legislator_by_id_snoc, filter_app, lookup_insert.
  rewrite (filter_cons _ leg), filter_nil.
  case_decide as Hid; destruct (decide (leg_id leg = sid)); try done.
  - by rewrite last_snoc.
  - by rewrite app_nil_r.
Qed.

Lemma last_filter_None {A} (P : A → Prop) `{∀ x, Decision (P x)} l :
  last (filter P l) = None ↔ ∀ x, x ∈ l → ¬ P x.
Proof.
  rewrite last_None. split.
  - intros Hnil x Hx HP.
    assert (x ∈ filter P l) as Hin by (by apply list_elem_of_filter).
    rewrite Hnil in Hin. by apply not_elem_of_nil in Hin.
  - intros Hall. apply elem_of_nil_inv. intros x.
    rewrite list_elem_of_filter. intros [HP Hx]. by apply (Hall x).
Qed.

(** C7: the primary sponsor of a bill's row is "Unknown" when the bill has
    no sponsor id or no loaded legislator has that id, and otherwise the
    name of the legislator with that id (the last one loaded with it). *)
Theorem primary_sponsor_resolution bills legislators vrs votes :
  Forall2 (λ bill row,
      br_id row = bill_id_of bill ∧ br_title row = bill_title bill
      ∧ ((bill_sponsor_id bill = None
          ∨ ∃ sid, bill_sponsor_id bill = Some sid
                   ∧ ∀ leg, leg ∈ legislators → leg_id leg ≠ sid) →
         primary_sponsor row = "Unknown")
      ∧ (∀ sid, bill_sponsor_id bill = Some sid →
           (∃ leg, leg ∈ legislators ∧ leg_id leg = sid) →
           ∃ leg, last (filter (λ leg, leg_id leg = sid) legislators) = Some leg
                  ∧ leg ∈ legislators ∧ leg_id leg = sid
                  ∧ primary_sponsor row = leg_name leg))
    (sorted bill_id_of bills)
    (compute_bill_summary bills legislators vrs votes).
Proof.
  rewrite compute_bill_summary_eq. apply Forall2_fmap_r, Forall_Forall2_diag.
  apply Forall_forall. intros bill _. simpl.
  split; [done|]. split; [done|].
  unfold sponsor_name_of. split.
  - intros [->|(sid & -> & Hnone)]; [done|].
    rewrite legislator_by_id_lookup.
    by rewrite (proj2 (last_filter_None (λ leg, leg_id leg = sid) legislators)
                  Hnone).
  - intros sid -> (leg & Hleg & Hid).
    rewrite legislator_by_id_lookup.
    destruct (last (filter (λ leg, leg_id leg = sid) legislators))
      as [leg'|] eqn:Hlast.
    + exists leg'. split; [done|].
      apply last_Some_elem_of, list_elem_of_filter in Hlast. tauto.
    + destruct (proj1 (last_filter_None _ _) Hlast leg Hleg Hid).
Qed.

Lemma primary_sponsor_resolution_witness :
  ∃ leg, last (filter (λ leg, leg_id leg = 1) ex_legislators) = Some leg
         ∧ leg ∈ ex_legislators ∧ leg_id leg = 1
         ∧ primary_sponsor (mkBillRow 10 "Act A" 1 1 "Alice") = leg_name leg.
Proof.
  pose proof (primary_sponsor_resolution ex_bills ex_legislators
                ex_vote_results ex_votes) as H.
  apply (Forall2_lookup_lr _ _ _ 0%nat (mkBill 10 "Act A" (Some 1))
           (mkBillRow 10 "Act A" 1 1 "Alice")) in H; [|reflexivity..].
  destruct H as (_ & _ & _ & H). apply H; [reflexivity|].
  exists (mkLegislator 1 "Alice"). split; [apply list_elem_of_here|reflexivity].
Defined.

(** ** The loaders keep duplicates *)

Lemma load_legislators_count rows k :
  length (filter (λ leg, leg_id leg = k) (load_legislators rows))
  = length (filter (λ row, parse_int (row_get row "id") = Some k) rows).
Proof.
  induction rows as [|row rows IH]; [done|]. simpl.
  rewrite (filter_cons _ row).
  destruct (parse_int (row_get row "id")) as [i|] eqn:Hid.
  - rewrite (filter_cons _ (mkLegislator _ _)). simpl.
    destruct (decide (i = k)) as [->|Hne].
    + rewrite decide_True by done. simpl. by rewrite IH.
    + rewrite decide_False by congruence. done.
  - by rewrite decide_False.
Qed.

Lemma load_bills_count rows k :
  length (filter (λ bill, bill_id_of bill = k) (load_bills rows))
  = length (filter (λ row, parse_int (row_get row "id") = Some k) rows).
Proof.
  induction rows as [|row rows IH]; [done|]. simpl.
  rewrite (filter_cons _ row).
  destruct (parse_int (row_get row "id")) as [i|] eqn:Hid.
  - rewrite (filter_cons _ (mkBill _ _ _)). simpl.
    destruct (decide (i = k)) as [->|Hne].
    + rewrite decide_True by done. simpl. by rewrite IH.
    + rewrite decide_False by congruence. done.
  - by rewrite decide_False.
Qed.

Lemma length_filter_fmap {A B} (f : A → B) (P : B → Prop)
    `{∀ y, Decision (P y)} (l : list A) :
  length (filter P (f <$> l)) = length (filter (λ x, P (f x)) l).
Proof.
  induction l as [|x l IH]; [done|].
  rewrite fmap_cons, !filter_cons.
  destruct (decide (P (f x))); simpl; by rewrite IH.
Qed.

(** Two places of a list that satisfy [P] are two entries of the filter. *)
Lemma filter_two {A} (P : A → Prop) `{!∀ x, Decision (P x)} (l : list A)
    i j x y :
  i ≠ j → l !! i = Some x → l !! j = Some y → P x → P y →
  (2 ≤ length (filter P l))%nat.
Proof.
  assert (∀ i j x y, (i < j)%nat → l !! i = Some x → l !! j = Some y →
            P x → P y → (2 ≤ length (filter P l))%nat) as Hlt.
  { clear. intros i j x y Hij Hi Hj Hx Hy.
    rewrite <- (take_drop_middle l j y Hj), filter_app, length_app.
    rewrite filter_cons_True by done. simpl.
    assert (x ∈ filter P (take j l)) as Hin.
    { apply list_elem_of_filter. split; [done|].
      apply list_elem_of_lookup. exists i. by rewrite lookup_take_lt. }
    destruct (filter P (take j l)); [by apply elem_of_nil in Hin|].
    simpl. lia. }
  intros Hne Hi Hj Hx Hy.
  destruct (decide (i < j)%nat); [by eapply (Hlt i j)|].
  eapply (Hlt j i); [lia|done..].
Qed.

(** C10: the loaders keep every row whose id parses, also when two rows
    carry the same id, and each summary has one row per loaded record:
    the rows of a summary with a given id are as many as the input rows
    whose id parses to it, so two input rows with one id give two loaded
    records and two rows of the summary. *)
Theorem loaders_keep_duplicate_ids (legislator_rows bill_rows : list RawRow)
    (legislators : list Legislator) (vrs : list VoteResult)
    (votes : gmap Z Vote) (k : Z) :
  length (filter (λ leg, leg_id leg = k) (load_legislators legislator_rows))
  = length (filter (λ row, parse_int (row_get row "id") = Some k)
              legislator_rows)
  ∧ length (filter (λ bill, bill_id_of bill = k) (load_bills bill_rows))
    = length (filter (λ row, parse_int (row_get row "id") = Some k) bill_rows)
  ∧ length (compute_legislator_summary (load_legislators legislator_rows)
              vrs votes)
    = length (load_legislators legislator_rows)
  ∧ length (compute_bill_summary (load_bills bill_rows) legislators vrs votes)
    = length (load_bills bill_rows)
  ∧ length (filter (λ row, lr_id row = k)
              (compute_legislator_summary (load_legislators legislator_rows)
                 vrs votes))
    = length (filter (λ row, parse_int (row_get row "id") = Some k)
                legislator_rows)
  ∧ length (filter (λ row, br_id row = k)
              (compute_bill_summary (load_bills bill_rows) legislators
                 vrs votes))
    = length (filter (λ row, parse_int (row_get row "id") = Some k) bill_rows)
  ∧ (∀ i j row_i row_j,
       i ≠ j →
       legislator_rows !! i = Some row_i → legislator_rows !! j = Some row_j →
       parse_int (row_get row_i "id") = Some k →
       parse_int (row_get row_j "id") = Some k →
       (2 ≤ length (filter (λ leg, leg_id leg = k)
                      (load_legislators legislator_rows)))%nat
       ∧ (2 ≤ length (filter (λ row, lr_id row = k)
                        (compute_legislator_summary
                           (load_legislators legislator_rows) vrs votes)))%nat)
  ∧ (∀ i j row_i row_j,
       i ≠ j →
       bill_rows !! i = Some row_i → bill_rows !! j = Some row_j →
       parse_int (row_get row_i "id") = Some k →
       parse_int (row_get row_j "id") = Some k →
       (2 ≤ length (filter (λ bill, bill_id_of bill = k)
                      (load_bills bill_rows)))%nat
       ∧ (2 ≤ length (filter (λ row, br_id row = k)
                        (compute_bill_summary (load_bills bill_rows)
                           legislators vrs votes)))%nat).
Proof.
  rewrite compute_legislator_summary_eq, compute_bill_summary_eq.
  change (map ?f ?l) with (f <$> l).
  rewrite !length_fmap, !(length_filter_fmap _ (λ row, _ row = k)). simpl.
  rewrite !sorted_stable, !(Permutation_length (sorted_perm _ _)).
  rewrite load_legislators_count, load_bills_count.
  repeat split; try done.
  - by eapply (filter_two _ legislator_rows i j).
  - by eapply (filter_two _ legislator_rows i j).
  - by eapply (filter_two _ bill_rows i j).
  - by eapply (filter_two _ bill_rows i j).
Qed.

Lemma loaders_keep_duplicate_ids_witness :
  (2 ≤ length (filter (λ row, lr_id row = 7%Z)
                 (compute_legislator_summary
                    (load_legislators
                       [[("id", "7"); ("name", "Ann")];
                        [("id", "x"); ("name", "Bo")];
                        [("id", " 7"); ("name", "Cy")]])
                    ex_vote_results ex_votes)))%nat.
Proof.
  destruct (loaders_keep_duplicate_ids
              [[("id", "7"); ("name", "Ann")];
               [("id", "x"); ("name", "Bo")];
               [("id", " 7"); ("name", "Cy")]]
              [] ex_legislators ex_vote_results ex_votes 7)
    as (_ & _ & _ & _ & _ & _ & H & _).
  apply (H 0%nat 2%nat [("id", "7"); ("name", "Ann")]
           [("id", " 7"); ("name", "Cy")]); [lia|reflexivity..].
Defined.

(** ** The store: allocation and update *)

Lemma prefix_insert_new (h0 h : Store.heap) l o :
  h0 `prefix_of` h → (length h0 ≤ l)%nat → h0 `prefix_of` <[l := o]> h.
Proof.
  intros [ext ->] Hl. exists (<[(l - length h0)%nat := o]> ext).
  by rewrite insert_app_r_alt.
Qed.

Lemma lookup_snoc_new (h : Store.heap) o : (h ++ [o]) !! length h = Some o.
Proof. by rewrite lookup_app_r, Nat.sub_diag. Qed.

Lemma dict_rep_ref h0 h d m k l :
  dict_rep h0 h d m → d !! k = Some l →
  (length h0 ≤ l)%nat ∧ (l < length h)%nat
  ∧ ∃ s, h !! l = Some (Store.OSet s) ∧ m !! k = Some s.
Proof.
  intros [Hsets _] Hk. specialize (Hsets k). rewrite Hk in Hsets.
  destruct Hsets as (Hl & s & Hs & Hm). split; [done|].
  split; [by eapply lookup_lt_Some|by exists s].
Qed.

(** A store that agrees with [h] on the sets of [d] represents the same
    dictionary. *)
Lemma dict_rep_frame h0 h h' d m :
  dict_rep h0 h d m →
  (∀ k l, d !! k = Some l → h' !! l = h !! l) →
  dict_rep h0 h' d m.
Proof.
  intros [Hsets Hinj] Hsame. split; [|done].
  intros k. specialize (Hsets k). specialize (Hsame k).
  destruct (d !! k) as [l|]; [|done]. by rewrite (Hsame l).
Qed.

Lemma tally_inv_sym h0 h a b da db ma mb :
  tally_inv h0 h a b da db ma mb → tally_inv h0 h b a db da mb ma.
Proof.
  intros []. split; try done. intros k1 k2 l ? ?. by eapply inv_apart0.
Qed.

Lemma tally_ok_sym h0 h a b acc :
  tally_ok h0 h a b acc → tally_ok h0 h b a (acc.2, acc.1).
Proof. intros (da & db & H). exists db, da. by apply tally_inv_sym. Qed.

(** Allocation leaves the invariant alone. *)
Lemma tally_inv_alloc h0 h a b da db ma mb o :
  tally_inv h0 h a b da db ma mb →
  tally_inv h0 (h ++ [o]) a b da db ma mb.
Proof.
  intros [Hpre Ha Hb Ha0 Hb0 Hab Hra Hrb Hapart]. split; try done.
  - by apply prefix_app_r.
  - by apply lookup_app_l_Some.
  - by apply lookup_app_l_Some.
  - apply (dict_rep_frame _ h); [done|]. intros k l Hk.
    destruct (dict_rep_ref _ _ _ _ _ _ Hra Hk) as (_ & Hlt & _).
    by apply lookup_app_l.
  - apply (dict_rep_frame _ h); [done|]. intros k l Hk.
    destruct (dict_rep_ref _ _ _ _ _ _ Hrb Hk) as (_ & Hlt & _).
    by apply lookup_app_l.
Qed.

(** Updating the set that [da] holds under [k]. *)
Lemma tally_inv_set_update h0 h a b da db ma mb k l s' :
  tally_inv h0 h a b da db ma mb →
  da !! k = Some l →
  tally_inv h0 (<[l := Store.OSet s']> h) a b da db (<[k := s']> ma) mb.
Proof.
  intros [Hpre Ha Hb Ha0 Hb0 Hab Hra Hrb Hapart] Hk.
  destruct (dict_rep_ref _ _ _ _ _ _ Hra Hk) as (Hl0 & Hlt & s & Hs & Hm).
  assert (l ≠ a) by (intros ->; congruence).
  assert (l ≠ b) by (intros ->; congruence).
  split; try done.
  - by apply prefix_insert_new.
  - by rewrite list_lookup_insert_ne.
  - by rewrite list_lookup_insert_ne.
  - split; [|apply Hra]. intros k'.
    pose proof (rep_sets _ _ _ _ Hra k') as Hk'.
    destruct (da !! k') as [l'|] eqn:Hdk'.
    + destruct Hk' as (Hl'0 & s0 & Hs0 & Hm0). split; [done|].
      destruct (decide (k = k')) as [->|Hne].
      * assert (l' = l) as -> by congruence.
        exists s'. by rewrite list_lookup_insert_eq, lookup_insert_eq.
      * assert (l ≠ l') by (intros ->; by destruct Hne, (rep_inj _ _ _ _ Hra k k' l')).
        exists s0. by rewrite list_lookup_insert_ne, lookup_insert_ne.
    + rewrite lookup_insert_ne; [done|]. intros ->. congruence.
  - apply (dict_rep_frame _ h); [done|]. intros k' l' Hk'.
    rewrite list_lookup_insert_ne; [done|]. intros ->. by eapply Hapart.
Qed.

(** Allocating a set and storing its reference under a new key of [da]. *)
Lemma tally_inv_link_new h0 h a b da db ma mb k s :
  tally_inv h0 h a b da db ma mb →
  da !! k = None →
  tally_inv h0
    (<[a := Store.ODict (<[k := length h]> da)]> (h ++ [Store.OSet s]))
    a b (<[k := length h]> da) db (<[k := s]> ma) mb.
Proof.
  intros [Hpre Ha Hb Ha0 Hb0 Hab Hra Hrb Hapart] Hk.
  pose proof (lookup_lt_Some _ _ _ Ha) as Hlta.
  pose proof (lookup_lt_Some _ _ _ Hb) as Hltb.
  pose proof (prefix_length _ _ Hpre) as Hlen.
  split; try done.
  - apply prefix_insert_new; [by apply prefix_app_r|done].
  - rewrite list_lookup_insert_eq; [done|]. rewrite length_app. lia.
  - rewrite list_lookup_insert_ne by done. by apply lookup_app_l_Some.
  - split.
    + intros k'. destruct (decide (k = k')) as [<-|Hne].
      * rewrite !lookup_insert_eq. split; [done|]. exists s. split; [|done].
        rewrite list_lookup_insert_ne by lia. apply lookup_snoc_new.
      * rewrite !lookup_insert_ne by done.
        pose proof (rep_sets _ _ _ _ Hra k') as Hk'.
        destruct (da !! k') as [l'|] eqn:Hdk'; [|done].
        destruct Hk' as (Hl'0 & s0 & Hs0 & Hm0). split; [done|].
        exists s0. split; [|done].
        rewrite list_lookup_insert_ne by (intros ->; congruence).
        by apply lookup_app_l_Some.
    + intros k1 k2 l. rewrite !lookup_insert.
      repeat case_decide; subst; intros H1 H2; try done; simplify_eq.
      * destruct (dict_rep_ref _ _ _ _ _ _ Hra H2) as (_ & ? & _). lia.
      * destruct (dict_rep_ref _ _ _ _ _ _ Hra H1) as (_ & ? & _). lia.
      * by eapply (rep_inj _ _ _ _ Hra).
  - apply (dict_rep_frame _ h); [done|]. intros k' l' Hk'.
    destruct (dict_rep_ref _ _ _ _ _ _ Hrb Hk') as (_ & Hlt & s0 & Hs0 & _).
    rewrite list_lookup_insert_ne by (intros ->; congruence).
    by apply lookup_app_l.
  - intros k1 k2 l. rewrite lookup_insert. case_decide; subst.
    + intros [= <-] H2.
      destruct (dict_rep_ref _ _ _ _ _ _ Hrb H2) as (_ & ? & _). lia.
    + apply Hapart.
Qed.

(** ** The store programs compute the summaries *)

(** [d.setdefault(k, set()).add(x)] on the dictionary at [a]. *)
Lemma setdefault_add_run h0 h a b acc k x :
  tally_ok h0 h a b acc →
  ∃ h',
    Store.bind Store.new_set (λ e,
      Store.bind (Store.dict_setdefault a k e) (λ s, Store.set_add s x)) h
    = Store.Ok tt h'
    ∧ tally_ok h0 h' a b (setdefault_add k x acc.1, acc.2).
Proof.
  intros (da & db & Hinv).
  pose proof (inv_a _ _ _ _ _ _ _ _ Hinv) as Ha.
  pose proof (inv_rep_a _ _ _ _ _ _ _ _ Hinv) as Hra.
  unfold Store.bind at 1, Store.new_set, Store.alloc.
  unfold Store.bind at 1, Store.dict_setdefault, Store.bind at 1, Store.read.
  rewrite (lookup_app_l_Some _ _ _ _ Ha).
  destruct (da !! k) as [l|] eqn:Hk.
  - destruct (dict_rep_ref _ _ _ _ _ _ Hra Hk) as (_ & _ & s & Hs & Hm).
    unfold Store.ret, Store.set_add, Store.bind, Store.read, Store.write.
    rewrite (lookup_app_l_Some _ _ _ _ Hs), (lookup_app_l_Some _ _ _ _ Hs).
    eexists. split; [reflexivity|]. exists da, db. simpl.
    unfold setdefault_add. rewrite Hm. simpl.
    apply tally_inv_set_update; [by apply tally_inv_alloc|done].
  - pose proof (rep_sets _ _ _ _ Hra k) as Hm. rewrite Hk in Hm.
    pose proof (lookup_lt_Some _ _ _ Ha) as Hlt.
    pose proof (tally_inv_link_new _ _ _ _ _ _ _ _ k ∅ Hinv Hk) as Hinv'.
    unfold Store.bind at 1, Store.write.
    rewrite (lookup_app_l_Some _ _ _ _ Ha).
    unfold Store.ret, Store.set_add, Store.bind, Store.read, Store.write.
    rewrite list_lookup_insert_ne by lia.
    rewrite lookup_snoc_new.
    rewrite list_lookup_insert_ne by lia.
    rewrite lookup_snoc_new.
    eexists. split; [reflexivity|]. exists (<[k := length h]> da), db. simpl.
    unfold setdefault_add. rewrite Hm. simpl.
    rewrite <- (insert_insert_eq acc.1 k ({[x]} ∪ ∅) ∅).
    apply tally_inv_set_update; [done|]. by rewrite lookup_insert_eq.
Qed.

(** [len(d.get(k, set()))] on the dictionary at [a], followed by [K]. *)
Lemma len_get_run {B} h0 h a b acc k (K : Z → Store.M B) :
  tally_ok h0 h a b acc →
  Store.bind Store.new_set (λ e,
    Store.bind (Store.dict_get a k e) (λ s,
      Store.bind (Store.set_len s) K)) h
  = K (len_get acc.1 k) (h ++ [Store.OSet ∅])
  ∧ tally_ok h0 (h ++ [Store.OSet ∅]) a b acc.
Proof.
  intros (da & db & Hinv). split; [|exists da, db; by apply tally_inv_alloc].
  pose proof (inv_a _ _ _ _ _ _ _ _ Hinv) as Ha.
  pose proof (inv_rep_a _ _ _ _ _ _ _ _ Hinv) as Hra.
  unfold Store.bind at 1, Store.new_set, Store.alloc.
  unfold Store.bind at 1, Store.dict_get, Store.bind at 1, Store.read.
  rewrite (lookup_app_l_Some _ _ _ _ Ha).
  unfold Store.ret, Store.set_len, Store.bind, Store.read, len_get.
  destruct (da !! k) as [l|] eqn:Hk; simpl.
  - destruct (dict_rep_ref _ _ _ _ _ _ Hra Hk) as (_ & _ & s & Hs & Hm).
    by rewrite (lookup_app_l_Some _ _ _ _ Hs), Hm.
  - pose proof (rep_sets _ _ _ _ Hra k) as Hm. rewrite Hk in Hm.
    by rewrite lookup_snoc_new, Hm.
Qed.

Section loops.
Context {A B : Type} (h0 : Store.heap) (a b : Store.loc).

(** A loop whose body follows [step] on the accumulators. *)
Lemma for_each_run (body : A → Store.M unit)
    (step : gmap Z (gset Z) * gmap Z (gset Z) → A
            → gmap Z (gset Z) * gmap Z (gset Z)) xs :
  (∀ x h acc, tally_ok h0 h a b acc →
     ∃ h', body x h = Store.Ok tt h' ∧ tally_ok h0 h' a b (step acc x)) →
  ∀ h acc, tally_ok h0 h a b acc →
    ∃ h', Store.for_each body xs h = Store.Ok tt h'
          ∧ tally_ok h0 h' a b (fold_left step xs acc).
Proof.
  intros Hbody. induction xs as [|x xs IH]; intros h acc Hok; simpl.
  - by exists h.
  - destruct (Hbody x h acc Hok) as (h1 & Hrun & Hok1).
    destruct (IH h1 _ Hok1) as (h2 & Hrun2 & Hok2).
    exists h2. unfold Store.bind. by rewrite Hrun.
Qed.

(** A comprehension whose element function only reads the accumulators. *)
Lemma map_m_run (f : A → Store.M B) (g : A → B) acc xs :
  (∀ x h, tally_ok h0 h a b acc →
     ∃ h', f x h = Store.Ok (g x) h' ∧ tally_ok h0 h' a b acc) →
  ∀ h, tally_ok h0 h a b acc →
    ∃ h', Store.map_m f xs h = Store.Ok (map g xs) h'
          ∧ tally_ok h0 h' a b acc.
Proof.
  intros Hf. induction xs as [|x xs IH]; intros h Hok; simpl.
  - by exists h.
  - destruct (Hf x h Hok) as (h1 & Hrun & Hok1).
    destruct (IH h1 Hok1) as (h2 & Hrun2 & Hok2).
    exists h2. unfold Store.bind. by rewrite Hrun, Hrun2.
Qed.
End loops.

(** The store after [supported = {}] and [opposed = {}]. *)
Lemma tally_ok_init (h : Store.heap) :
  tally_ok h ((h ++ [Store.ODict ∅]) ++ [Store.ODict ∅])
    (length h) (length (h ++ [Store.ODict ∅])) (∅, ∅).
Proof.
  exists ∅, ∅. rewrite length_app. simpl. split.
  - rewrite <- app_assoc. by apply prefix_app_r.
  - apply lookup_app_l_Some, lookup_snoc_new.
  - replace (length h + 1)%nat with (length (h ++ [Store.ODict ∅]))
      by (rewrite length_app; simpl; lia).
    apply lookup_snoc_new.
  - lia.
  - lia.
  - lia.
  - split; [intros k; by rewrite !lookup_empty|].
    intros k1 k2 l. by rewrite lookup_empty.
  - split; [intros k; by rewrite !lookup_empty|].
    intros k1 k2 l. by rewrite lookup_empty.
  - intros k1 k2 l. by rewrite lookup_empty.
Qed.

(** The body of either loop, with the key and the element as parameters. *)
Lemma tally_body_run h0 a b (key elem : VoteResult → Vote → Z) votes
    result h acc :
  tally_ok h0 h a b acc →
  ∃ h',
    match votes !! vote_id result with
    | None => Store.ret tt
    | Some vote =>
        if vote_type result =? 1 then
          Store.bind Store.new_set (λ e,
            Store.bind (Store.dict_setdefault a (key result vote) e) (λ s,
              Store.set_add s (elem result vote)))
        else if vote_type result =? 2 then
          Store.bind Store.new_set (λ e,
            Store.bind (Store.dict_setdefault b (key result vote) e) (λ s,
              Store.set_add s (elem result vote)))
        else Store.ret tt
    end h = Store.Ok tt h'
    ∧ tally_ok h0 h' a b (tally_step key elem votes acc result).
Proof.
  intros Hok. unfold tally_step.
  destruct (votes !! vote_id result) as [vote|]; [|by exists h].
  destruct (vote_type result =? 1).
  - by apply setdefault_add_run.
  - destruct (vote_type result =? 2); [|by exists h].
    destruct (setdefault_add_run h0 h b a (acc.2, acc.1)
                (key result vote) (elem result vote))
      as (h' & Hrun & Hok'); [by apply tally_ok_sym|].
    exists h'. split; [done|]. by apply tally_ok_sym in Hok'.
Qed.

Lemma compute_legislator_summary_run legislators vrs votes (h : Store.heap) :
  ∃ ext,
    Store.compute_legislator_summary legislators vrs votes h
    = Store.Ok (compute_legislator_summary legislators vrs votes) (h ++ ext).
Proof.
  unfold Store.compute_legislator_summary.
  unfold Store.bind at 1, Store.new_dict at 1, Store.alloc.
  unfold Store.bind at 1, Store.new_dict at 1, Store.alloc.
  set (a := length h). set (b := length (h ++ [Store.ODict ∅])).
  unfold Store.bind at 1.
  match goal with
  | |- context [Store.for_each ?body vrs ?h1] =>
      destruct (for_each_run h a b body
                  (tally_step (λ r _, legislator_id r) (λ _ v, vote_bill_id v)
                     votes) vrs
                  (λ x h' acc, tally_body_run h a b _ _ votes x h' acc)
                  h1 (∅, ∅) (tally_ok_init h))
        as (h2 & -> & Hok)
  end.
  rewrite compute_legislator_summary_eq, legislator_tally_eq.
  set (acc := fold_left _ vrs (∅, ∅)) in *.
  match goal with
  | |- context [Store.map_m ?f ?xs h2] =>
      destruct (map_m_run h a b f (legislator_row acc.1 acc.2) acc xs)
        with (h := h2) as (h3 & -> & Hok3)
  end; [|done|].
  - intros leg h' Hok'.
    destruct (len_get_run h h' a b acc (leg_id leg)
                (λ n1, Store.bind Store.new_set (λ e2,
                   Store.bind (Store.dict_get b (leg_id leg) e2) (λ s2,
                     Store.bind (Store.set_len s2) (λ n2,
                       Store.ret {| lr_id := leg_id leg;
                                    lr_name := leg_name leg;
                                    num_supported_bills := n1;
                                    num_opposed_bills := n2 |})))) Hok')
      as [-> Hok1].
    apply tally_ok_sym in Hok1.
    destruct (len_get_run h _ b a (acc.2, acc.1) (leg_id leg)
                (λ n2, Store.ret {| lr_id := leg_id leg;
                                    lr_name := leg_name leg;
                                    num_supported_bills :=
                                      len_get acc.1 (leg_id leg);
                                    num_opposed_bills := n2 |}) Hok1)
      as [-> Hok2].
    apply tally_ok_sym in Hok2. simpl in Hok2.
    eexists. split; [reflexivity|]. by destruct acc.
  - destruct Hok3 as (da & db & Hinv).
    destruct (inv_prefix _ _ _ _ _ _ _ _ Hinv) as [ext ->]. by exists ext.
Qed.

Lemma compute_bill_summary_run bills legislators vrs votes (h : Store.heap) :
  ∃ ext,
    Store.compute_bill_summary bills legislators vrs votes h
    = Store.Ok (compute_bill_summary bills legislators vrs votes) (h ++ ext).
Proof.
  unfold Store.compute_bill_summary.
  unfold Store.bind at 1, Store.new_dict at 1, Store.alloc.
  unfold Store.bind at 1, Store.new_dict at 1, Store.alloc.
  set (a := length h). set (b := length (h ++ [Store.ODict ∅])).
  unfold Store.bind at 1.
  match goal with
  | |- context [Store.for_each ?body vrs ?h1] =>
      destruct (for_each_run h a b body
                  (tally_step (λ _ v, vote_bill_id v) (λ r _, legislator_id r)
                     votes) vrs
                  (λ x h' acc, tally_body_run h a b _ _ votes x h' acc)
                  h1 (∅, ∅) (tally_ok_init h))
        as (h2 & -> & Hok)
  end.
  rewrite compute_bill_summary_eq, bill_tally_eq.
  set (acc := fold_left _ vrs (∅, ∅)) in *.
  match goal with
  | |- context [Store.map_m ?f ?xs h2] =>
      destruct (map_m_run h a b f
                  (bill_row acc.1 acc.2 (legislator_by_id legislators)) acc xs)
        with (h := h2) as (h3 & -> & Hok3)
  end; [|done|].
  - intros bill h' Hok'.
    destruct (len_get_run h h' a b acc (bill_id_of bill)
                (λ n1, Store.bind Store.new_set (λ e2,
                   Store.bind (Store.dict_get b (bill_id_of bill) e2) (λ s2,
                     Store.bind (Store.set_len s2) (λ n2,
                       Store.ret {| br_id := bill_id_of bill;
                                    br_title := bill_title bill;
                                    supporter_count := n1;
                                    opposer_count := n2;
                                    primary_sponsor :=
                                      sponsor_name_of
                                        (legislator_by_id legislators) bill |}))))
                Hok')
      as [-> Hok1].
    apply tally_ok_sym in Hok1.
    destruct (len_get_run h _ b a (acc.2, acc.1) (bill_id_of bill)
                (λ n2, Store.ret {| br_id := bill_id_of bill;
                                    br_title := bill_title bill;
                                    supporter_count :=
                                      len_get acc.1 (bill_id_of bill);
                                    opposer_count := n2;
                                    primary_sponsor :=
                                      sponsor_name_of
                                        (legislator_by_id legislators) bill |})
                Hok1)
      as [-> Hok2].
    apply tally_ok_sym in Hok2. simpl in Hok2.
    eexists. split; [reflexivity|]. by destruct acc.
  - destruct Hok3 as (da & db & Hinv).
    destruct (inv_prefix _ _ _ _ _ _ _ _ Hinv) as [ext ->]. by exists ext.
Qed.

(** [summarize] exits when a file is missing and otherwise returns the two
    summaries of the loaded records, whatever the store it starts from. *)
Lemma summarize_run data_dir (h : Store.heap) :
  match bills_csv data_dir, legislators_csv data_dir,
        votes_csv data_dir, vote_results_csv data_dir with
  | Some bills_rows, Some legislators_rows, Some votes_rows,
    Some vote_results_rows =>
      ∃ ext,
        Store.summarize data_dir h
        = Store.Ok
            (compute_legislator_summary (load_legislators legislators_rows)
               (load_vote_results vote_results_rows) (load_votes votes_rows),
             compute_bill_summary (load_bills bills_rows)
               (load_legislators legislators_rows)
               (load_vote_results vote_results_rows) (load_votes votes_rows))
            (h ++ ext)
  | _, _, _, _ => Store.summarize data_dir h = Store.Raise (Store.Exit 1)
  end.
Proof.
  unfold Store.summarize.
  destruct (bills_csv data_dir) as [bills_rows|]; [|done].
  destruct (legislators_csv data_dir) as [legislators_rows|]; [|done].
  destruct (votes_csv data_dir) as [votes_rows|]; [|done].
  destruct (vote_results_csv data_dir) as [vote_results_rows|]; [|done].
  unfold Store.bind, Store.require_exists, Store.ret.
  destruct (compute_legislator_summary_run (load_legislators legislators_rows)
              (load_vote_results vote_results_rows) (load_votes votes_rows) h)
    as [ext1 ->].
  destruct (compute_bill_summary_run (load_bills bills_rows)
              (load_legislators legislators_rows)
              (load_vote_results vote_results_rows) (load_votes votes_rows)
              (h ++ ext1))
    as [ext2 ->].
  exists (ext1 ++ ext2). by rewrite app_assoc.
Qed.

(** C8: from any store, also the one another computation has left, each
    summary computation returns the rows that the loaded records
    determine, and leaves every object that was in the store as it was;
    two runs of [summarize] on the same files return the same rows. *)
Theorem summaries_are_pure legislators bills vrs votes data_dir
    (h : Store.heap) :
  (∃ ext,
     Store.compute_legislator_summary legislators vrs votes h
     = Store.Ok (compute_legislator_summary legislators vrs votes) (h ++ ext))
  ∧ (∃ ext,
       Store.compute_bill_summary bills legislators vrs votes h
       = Store.Ok (compute_bill_summary bills legislators vrs votes)
           (h ++ ext))
  ∧ match Store.summarize data_dir h with
    | Store.Ok out h1 =>
        h `prefix_of` h1
        ∧ ∀ h', ∃ ext, Store.summarize data_dir h' = Store.Ok out (h' ++ ext)
    | Store.Raise e =>
        e = Store.Exit 1
        ∧ ∀ h', Store.summarize data_dir h' = Store.Raise (Store.Exit 1)
    end.
Proof.
  split; [apply compute_legislator_summary_run|].
  split; [apply compute_bill_summary_run|].
  pose proof (summarize_run data_dir) as Hrun.
  destruct (bills_csv data_dir) as [bills_rows|];
    [|by rewrite (Hrun h)].
  destruct (legislators_csv data_dir) as [legislators_rows|];
    [|by rewrite (Hrun h)].
  destruct (votes_csv data_dir) as [votes_rows|];
    [|by rewrite (Hrun h)].
  destruct (vote_results_csv data_dir) as [vote_results_rows|];
    [|by rewrite (Hrun h)].
  destruct (Hrun h) as [ext ->]. split; [by exists ext|].
  intros h'. apply Hrun.
Qed.

(** ** Results that resolve to no vote *)

Lemma fold_tally_skip key elem votes pre r post acc :
  votes !! vote_id r = None →
  fold_left (tally_step key elem votes) (pre ++ r :: post) acc
  = fold_left (tally_step key elem votes) (pre ++ post) acc.
Proof.
  intros Hr. rewrite !fold_left_app. simpl.
  by rewrite tally_step_unresolved.
Qed.

(** C6: a vote result whose vote id is no key of the vote lookup
    contributes nothing: with or without it both summaries are the same,
    and both computations return normally. *)
Theorem unresolved_result_ignored legislators bills pre r post votes :
  votes !! vote_id r = None →
  compute_legislator_summary legislators (pre ++ r :: post) votes
  = compute_legislator_summary legislators (pre ++ post) votes
  ∧ compute_bill_summary bills legislators (pre ++ r :: post) votes
    = compute_bill_summary bills legislators (pre ++ post) votes
  ∧ (∀ h : Store.heap, ∃ ext,
       Store.compute_legislator_summary legislators (pre ++ r :: post) votes h
       = Store.Ok (compute_legislator_summary legislators (pre ++ post) votes)
           (h ++ ext))
  ∧ (∀ h : Store.heap, ∃ ext,
       Store.compute_bill_summary bills legislators (pre ++ r :: post) votes h
       = Store.Ok (compute_bill_summary bills legislators (pre ++ post) votes)
           (h ++ ext)).
Proof.
  intros Hr.
  assert (compute_legislator_summary legislators (pre ++ r :: post) votes
          = compute_legislator_summary legislators (pre ++ post) votes) as Hl.
  { rewrite !compute_legislator_summary_eq, !legislator_tally_eq.
    by rewrite fold_tally_skip. }
  assert (compute_bill_summary bills legislators (pre ++ r :: post) votes
          = compute_bill_summary bills legislators (pre ++ post) votes) as Hb.
  { rewrite !compute_bill_summary_eq, !bill_tally_eq.
    by rewrite fold_tally_skip. }
  split; [done|]. split; [done|]. split; intros h.
  - rewrite <- Hl. apply compute_legislator_summary_run.
  - rewrite <- Hb. apply compute_bill_summary_run.
Qed.

Lemma unresolved_result_ignored_witness :
  compute_legislator_summary ex_legislators
    ([mkVoteResult 1 100 1] ++ mkVoteResult 2 999 1 :: [mkVoteResult 2 100 2])
    ex_votes
  = compute_legislator_summary ex_legislators
      ([mkVoteResult 1 100 1] ++ [mkVoteResult 2 100 2]) ex_votes.
Proof.
  apply (unresolved_result_ignored ex_legislators ex_bills
           [mkVoteResult 1 100 1] (mkVoteResult 2 999 1)
           [mkVoteResult 2 100 2] ex_votes).
  reflexivity.
Defined.

(** ** Rows: reading and assignment *)

Lemma filter_ext_elem {A} (P1 P2 : A → Prop)
    `{!∀ x, Decision (P1 x), !∀ x, Decision (P2 x)} (l : list A) :
  (∀ x, x ∈ l → P1 x ↔ P2 x) → filter P1 l = filter P2 l.
Proof.
  induction l as [|a l IH]; intros Hiff; [done|].
  rewrite !filter_cons, IH
    by (intros x Hx; apply Hiff; by apply list_elem_of_further).
  pose proof (Hiff a (list_elem_of_here _ _)).
  destruct (decide (P1 a)), (decide (P2 a)); tauto.
Qed.

Section rows.
Context {V : Type}.
Implicit Types (row : list (string * V)) (k : string) (v : V).

Lemma row_get_set row k v k' :
  row_get (row_set row k v) k'
  = if decide (k = k') then Some v else row_get row k'.
Proof.
  induction row as [|[k0 v0] row IH]; simpl.
  - destruct (String.eqb_spec k k'); by case_decide.
  - destruct (String.eqb_spec k0 k) as [->|Hne]; simpl.
    + destruct (String.eqb_spec k k'); by case_decide.
    + destruct (String.eqb_spec k0 k') as [->|Hne'].
      * by rewrite decide_False by done.
      * done.
Qed.

Lemma row_keys_set row k v :
  row_keys (row_set row k v)
  = row_keys row ++ filter (λ f, f ∉ row_keys row) [k].
Proof.
  unfold row_keys. induction row as [|[k0 v0] row IH]; simpl.
  - rewrite filter_cons_True; [done|]. apply not_elem_of_nil.
  - destruct (String.eqb_spec k0 k) as [->|Hne]; simpl; refold_fmap.
    + rewrite filter_cons_False, app_nil_r; [done|].
      intros H. apply H, list_elem_of_here.
    + rewrite IH. f_equal. f_equal.
      rewrite !(filter_cons _ k), !filter_nil.
      destruct (decide (k ∈ row.*1)) as [Hin|Hin].
      * rewrite !decide_False; [done|..]; intros H; apply H;
          [by apply list_elem_of_further|done].
      * rewrite !decide_True; [done|..]; [|done].
        rewrite elem_of_cons. intros [->|]; done.
Qed.

Lemma row_get_is_Some row k : is_Some (row_get row k) ↔ k ∈ row_keys row.
Proof.
  unfold row_keys. induction row as [|[k0 v0] row IH]; simpl.
  - rewrite elem_of_nil. split; [by intros []|done].
  - rewrite elem_of_cons. destruct (String.eqb_spec k0 k) as [->|Hne].
    + split; [by left|by eexists].
    + rewrite IH. naive_solver.
Qed.

(** Several assignments of distinct names. *)
Lemma row_keys_set_all row items :
  NoDup items.*1 →
  row_keys (row_set_all row items)
  = row_keys row ++ filter (λ f, f ∉ row_keys row) items.*1.
Proof.
  unfold row_set_all. revert row.
  induction items as [|[k v] items IH]; intros row Hnd; simpl.
  - by rewrite filter_nil, app_nil_r.
  - apply NoDup_cons in Hnd as [Hk Hnd].
    rewrite IH, row_keys_set by done. simpl.
    rewrite !(filter_cons _ k), !filter_nil.
    destruct (decide (k ∉ row_keys row)) as [Hnew|Hold].
    + rewrite <- app_assoc. f_equal. simpl. f_equal.
      apply filter_ext_elem. intros f Hf.
      rewrite elem_of_app, list_elem_of_singleton.
      split; [tauto|]. intros Hfr [?| ->]; done.
    + by rewrite app_nil_r.
Qed.

Lemma row_get_set_all row items k :
  k ∉ items.*1 → row_get (row_set_all row items) k = row_get row k.
Proof.
  unfold row_set_all. revert row.
  induction items as [|[k0 v0] items IH]; intros row Hk; simpl; [done|].
  simpl in Hk. apply not_elem_of_cons in Hk as [Hne Hk].
  rewrite IH by done. rewrite row_get_set. by rewrite decide_False.
Qed.

Lemma row_get_set_all_is_Some row items k :
  k ∈ items.*1 → is_Some (row_get (row_set_all row items) k).
Proof.
  unfold row_set_all. revert row.
  induction items as [|[k0 v0] items IH]; intros row Hk; simpl in *.
  - by apply elem_of_nil in Hk.
  - destruct (decide (k ∈ items.*1)) as [Hin|Hnot]; [by apply IH|].
    apply elem_of_cons in Hk as [->|Hk]; [|done].
    pose proof (row_get_set_all (row_set row k0 v0) items k0 Hnot) as Hget.
    unfold row_set_all in Hget. rewrite Hget, row_get_set.
    by rewrite decide_True.
Qed.
End rows.

Lemma row_get_VStr (r : RawRow) k :
  row_get (prod_map id Store.VStr <$> r) k = Store.VStr <$> row_get r k.
Proof.
  induction r as [|[k0 v0] r IH]; simpl; [done|].
  by destruct (String.eqb k0 k).
Qed.

Lemma row_keys_VStr (r : RawRow) :
  row_keys (prod_map id Store.VStr <$> r) = row_keys r.
Proof.
  unfold row_keys. rewrite <- list_fmap_compose.
  apply list_fmap_ext. by intros _ [] _.
Qed.

(** ** Enrichment builds new rows *)

Lemma insert_snoc_new (h : Store.heap) o o' :
  <[length h := o']> (h ++ [o]) = h ++ [o'].
Proof. rewrite insert_app_r_alt by lia. by rewrite Nat.sub_diag. Qed.

Lemma read_raw_run (h : Store.heap) l r :
  h !! l = Some (Store.ORaw r) → Store.read_raw l h = Store.Ok r h.
Proof.
  intros H. unfold Store.read_raw, Store.bind, Store.read. by rewrite H.
Qed.

Lemma dict_copy_run (h : Store.heap) l r :
  h !! l = Some (Store.ORaw r) →
  Store.dict_copy l h
  = Store.Ok (length h) (h ++ [Store.ORow (prod_map id Store.VStr <$> r)]).
Proof.
  intros H. unfold Store.dict_copy, Store.bind, Store.read. by rewrite H.
Qed.

Lemma setitem_run (h : Store.heap) r k v :
  Store.setitem (length h) k v (h ++ [Store.ORow r])
  = Store.Ok tt (h ++ [Store.ORow (row_set r k v)]).
Proof.
  unfold Store.setitem, Store.bind, Store.read, Store.write.
  by rewrite !lookup_snoc_new, insert_snoc_new.
Qed.

Lemma enrich_bill_enricher legislators :
  enricher (Store.enrich_bill legislators) ["sponsor_name"].
Proof.
  intros h l r Hl. unfold Store.enrich_bill, Store.bind.
  rewrite (read_raw_run _ _ _ Hl), (dict_copy_run _ _ _ Hl), setitem_run.
  eexists [(_, _)]. split; reflexivity.
Qed.

Lemma enrich_vote_enricher bills :
  enricher (Store.enrich_vote bills) ["bill_title"].
Proof.
  intros h l r Hl. unfold Store.enrich_vote, Store.bind.
  rewrite (read_raw_run _ _ _ Hl), (dict_copy_run _ _ _ Hl), setitem_run.
  eexists [(_, _)]. split; reflexivity.
Qed.

Lemma enrich_vote_result_enricher legislators bills votes :
  enricher (Store.enrich_vote_result legislators bills votes)
    ["legislator_name"; "bill_id"; "bill_title"].
Proof.
  intros h l r Hl. unfold Store.enrich_vote_result, Store.bind.
  rewrite (read_raw_run _ _ _ Hl), (dict_copy_run _ _ _ Hl), !setitem_run.
  eexists [(_, _); (_, _); (_, _)]. split; reflexivity.
Qed.

(** The comprehension over the rows: one new object per row, in order,
    after everything the store held. *)
Lemma enrich_all_run f extra rows raws :
  enricher f extra →
  ∀ h : Store.heap,
    Forall2 (λ l r, h !! l = Some (Store.ORaw r)) rows raws →
    ∃ news,
      Store.map_m f rows h
      = Store.Ok (seq (length h) (length rows)) (h ++ (Store.ORow <$> news))
      ∧ Forall2 (λ r new, ∃ items,
           items.*1 = extra
           ∧ new = row_set_all (prod_map id Store.VStr <$> r) items) raws news.
Proof.
  intros Hf. revert raws.
  induction rows as [|l rows IH]; intros raws h Hrows.
  - apply Forall2_nil_inv_l in Hrows as ->. exists []. simpl.
    by rewrite app_nil_r.
  - apply Forall2_cons_inv_l in Hrows as (r & raws' & Hl & Hrows & ->).
    destruct (Hf h l r Hl) as (items & Hitems & Hrun).
    destruct (IH raws' (h ++ [Store.ORow
                (row_set_all (prod_map id Store.VStr <$> r) items)]))
      as (news & Hrun' & Hnews).
    { eapply Forall2_impl; [exact Hrows|]. intros l' r' H'.
      by apply lookup_app_l_Some. }
    exists (row_set_all (prod_map id Store.VStr <$> r) items :: news).
    split.
    + cbn [Store.map_m]. unfold Store.bind at 1. rewrite Hrun.
      unfold Store.bind at 1. rewrite Hrun'.
      unfold Store.ret. rewrite length_app, Nat.add_1_r, <- app_assoc. done.
    + constructor; [by exists items|done].
Qed.

(** Where the new rows are and what they hold. *)
Lemma enriched_rows_spec (h : Store.heap) extra raws news :
  NoDup extra →
  Forall2 (λ r new, ∃ items : list (string * Store.pyval),
     items.*1 = extra
     ∧ new = row_set_all (prod_map id Store.VStr <$> r) items) raws news →
  Forall2 (λ l' r,
      (length h ≤ l')%nat
      ∧ columns (h ++ (Store.ORow <$> news)) l'
        = Some (row_keys r ++ filter (λ f, f ∉ row_keys r) extra)
      ∧ (∀ k, k ∉ extra →
           cell (h ++ (Store.ORow <$> news)) l' k = Store.VStr <$> row_get r k)
      ∧ (∀ k, k ∈ extra → is_Some (cell (h ++ (Store.ORow <$> news)) l' k)))
    (seq (length h) (length raws)) raws.
Proof.
  intros Hnd Hnews. apply Forall2_same_length_lookup_2.
  { by rewrite length_seq. }
  intros i l' r Hi Hr. apply lookup_seq in Hi as [-> Hlt].
  destruct (Forall2_lookup_l _ _ _ _ _ Hnews Hr)
    as (new & Hnew & items & Hitems & ->).
  assert ((h ++ (Store.ORow <$> news)) !! (length h + i)%nat
          = Some (Store.ORow
                    (row_set_all (prod_map id Store.VStr <$> r) items)))
    as Hobj.
  { rewrite lookup_app_r by lia.
    replace (length h + i - length h)%nat with i by lia.
    by rewrite list_lookup_fmap, Hnew. }
  unfold columns, cell. rewrite Hobj. split; [lia|]. split; [|split].
  - rewrite row_keys_set_all by (by rewrite Hitems).
    by rewrite row_keys_VStr, Hitems.
  - intros k Hk. rewrite row_get_set_all by (by rewrite Hitems).
    apply row_get_VStr.
  - intros k Hk. apply row_get_set_all_is_Some. by rewrite Hitems.
Qed.

Lemma NoDup_fields3 (a b c : string) :
  a ≠ b → a ≠ c → b ≠ c → NoDup [a; b; c].
Proof.
  intros. repeat constructor; rewrite ?elem_of_cons, ?elem_of_nil; naive_solver.
Qed.

Lemma enrich_rows_enriched rows category data_dir (h : Store.heap) raws :
  Forall2 (λ l r, h !! l = Some (Store.ORaw r)) rows raws →
  enriched category = true →
  match Store.enrich_rows rows category data_dir h with
  | Store.Raise e => e = Store.Exit 1
  | Store.Ok out h' =>
      ∃ news,
        out.1 = seq (length h) (length rows)
        ∧ h' = h ++ (Store.ORow <$> news)
        ∧ out.2 = extra_fields category
        ∧ NoDup out.2
        ∧ Forall2 (λ r new, ∃ items : list (string * Store.pyval),
             items.*1 = out.2
             ∧ new = row_set_all (prod_map id Store.VStr <$> r) items)
            raws news
  end.
Proof.
  intros Hrows. unfold enriched, Store.enrich_rows, extra_fields.
  destruct (String.eqb category "bills").
  { intros _. unfold Store.bind at 1, Store.load_legislator_lookup.
    unfold Store.bind at 1, Store.require_exists.
    destruct (legislators_csv data_dir); [|done]. unfold Store.ret at 1 2.
    unfold Store.bind.
    match goal with
    | |- context [Store.map_m ?f rows h] =>
        destruct (enrich_all_run f _ rows raws (enrich_bill_enricher _) h Hrows)
          as (news & -> & Hnews)
    end.
    exists news. repeat split; try done. apply NoDup_singleton. }
  destruct (String.eqb category "votes").
  { intros _. unfold Store.bind at 1, Store.load_bill_lookup.
    unfold Store.bind at 1, Store.require_exists.
    destruct (bills_csv data_dir); [|done]. unfold Store.ret at 1 2.
    unfold Store.bind.
    match goal with
    | |- context [Store.map_m ?f rows h] =>
        destruct (enrich_all_run f _ rows raws (enrich_vote_enricher _) h Hrows)
          as (news & -> & Hnews)
    end.
    exists news. repeat split; try done. apply NoDup_singleton. }
  destruct (String.eqb category "vote_results"); [|done].
  intros _. unfold Store.bind at 1, Store.load_legislator_lookup.
  unfold Store.bind at 1, Store.require_exists.
  destruct (legislators_csv data_dir); [|done]. unfold Store.ret at 1 2.
  unfold Store.bind at 1, Store.load_bill_lookup.
  unfold Store.bind at 1, Store.require_exists.
  destruct (bills_csv data_dir); [|done]. unfold Store.ret at 1 2.
  unfold Store.bind at 1, Store.load_vote_lookup.
  unfold Store.bind at 1, Store.require_exists.
  destruct (votes_csv data_dir); [|done]. unfold Store.ret at 1 2.
  unfold Store.bind.
  match goal with
  | |- context [Store.map_m ?f rows h] =>
      destruct (enrich_all_run f _ rows raws
                  (enrich_vote_result_enricher _ _ _) h Hrows)
        as (news & -> & Hnews)
  end.
  exists news. repeat split; try done. by apply NoDup_fields3.
Qed.


Lemma enrich_rows_frame rows category data_dir (h : Store.heap) raws :
  Forall2 (λ l r, h !! l = Some (Store.ORaw r)) rows raws →
  match Store.enrich_rows rows category data_dir h with
  | Store.Raise e => e = Store.Exit 1 ∧ enriched category = true
  | Store.Ok out h' =>
      h `prefix_of` h'
      ∧ Forall2 (λ l r, h' !! l = Some (Store.ORaw r)) rows raws
      ∧ out.2 = extra_fields category
      ∧ if enriched category then
          NoDup out.1
          ∧ Forall2 (λ l' r,
                (length h ≤ l')%nat
                ∧ columns h' l'
                  = Some (row_keys r ++ filter (λ f, f ∉ row_keys r) out.2)
                ∧ (∀ k, k ∉ out.2 →
                     cell h' l' k = Store.VStr <$> row_get r k)
                ∧ (∀ k, k ∈ out.2 → is_Some (cell h' l' k)))
              out.1 raws
        else out.1 = rows ∧ h' = h
  end.
Proof.
  intros Hrows. destruct (enriched category) eqn:Hcat.
  - pose proof (enrich_rows_enriched rows category data_dir h raws
                  Hrows Hcat) as Hrun.
    destruct (Store.enrich_rows rows category data_dir h)
      as [[rows' extra] h'|e]; [|done].
    destruct Hrun as (news & Hrows' & -> & Hextra & Hnd & Hnews). simpl in *.
    subst rows'. split; [by apply prefix_app_r|]. split.
    { eapply Forall2_impl; [exact Hrows|]. intros l r Hl.
      by apply lookup_app_l_Some. }
    split; [done|]. split; [apply NoDup_seq|].
    rewrite (Forall2_length _ _ _ Hrows).
    by apply enriched_rows_spec.
  - unfold enriched in Hcat. unfold Store.enrich_rows, extra_fields.
    destruct (String.eqb category "bills"); [done|].
    destruct (String.eqb category "votes"); [done|].
    destruct (String.eqb category "vote_results"); [done|].
    unfold Store.ret. done.
Qed.

(** Reading the first rows of a file puts one row object each at the end
    of the store. *)
Lemma alloc_rows_run (raws : list RawRow) (h : Store.heap) :
  Store.map_m (λ r, Store.alloc (Store.ORaw r)) raws h
  = Store.Ok (seq (length h) (length raws)) (h ++ (Store.ORaw <$> raws)).
Proof.
  revert h. induction raws as [|r raws IH]; intros h; simpl.
  - by rewrite app_nil_r.
  - unfold Store.bind at 1, Store.alloc at 1. unfold Store.bind at 1.
    rewrite IH. unfold Store.ret.
    by rewrite length_app, Nat.add_1_r, <- app_assoc.
Qed.

Lemma alloc_rows_lookup (raws : list RawRow) (h : Store.heap) :
  Forall2 (λ l r, (h ++ (Store.ORaw <$> raws)) !! l = Some (Store.ORaw r))
    (seq (length h) (length raws)) raws.
Proof.
  apply Forall2_same_length_lookup_2; [by rewrite length_seq|].
  intros i l r Hi Hr. apply lookup_seq in Hi as [-> Hlt].
  rewrite lookup_app_r by lia.
  replace (length h + i - length h)%nat with i by lia.
  by rewrite list_lookup_fmap, Hr.
Qed.




(** ** The sponsor in the preview and in the bill summary *)

(** The lookup of the preview holds the names of the records that the
    lookup of the bill summary holds. *)
Lemma legislator_lookup_names legislators :
  fold_left (λ d leg, <[leg_id leg := leg_name leg]> d) legislators ∅
  = leg_name <$> legislator_by_id legislators.
Proof.
  induction legislators as [|leg legislators IH] using rev_ind.
  - unfold legislator_by_id. simpl. by rewrite fmap_empty.
  - rewrite fold_left_app, legislator_by_id_snoc, fmap_insert. simpl.
    by rewrite IH.
Qed.

(** X19: away from the sponsor id 0 the preview and the bill summary
    agree on the sponsor of every bill row: the [sponsor_name] that the
    preview of bills adds is the [primary_sponsor] of the bill summary. *)
Lemma sponsor_name_agrees_unless_zero legislator_rows data_dir
    (h : Store.heap) l row bill :
  legislators_csv data_dir = Some legislator_rows →
  h !! l = Some (Store.ORaw row) →
  bill ∈ load_bills [row] →
  bill_sponsor_id bill ≠ Some 0 →
  ∃ h',
    Store.enrich_rows [l] "bills" data_dir h
    = Store.Ok ([length h], ["sponsor_name"]) h'
    ∧ cell h' (length h) "sponsor_name"
      = Some (Store.VStr
                (sponsor_name_of
                   (legislator_by_id (load_legislators legislator_rows))
                   bill)).
Proof.
  intros Hfile Hl Hbill Hnz.
  assert (bill_sponsor_id bill = parse_int (sponsor_id_raw row)) as Hsid.
  { simpl in Hbill. destruct (parse_int (row_get row "id")).
    - by apply list_elem_of_singleton in Hbill as ->.
    - by apply elem_of_nil in Hbill. }
  unfold Store.enrich_rows. cbn [String.eqb Ascii.eqb Bool.eqb].
  unfold Store.bind at 1, Store.load_legislator_lookup.
  unfold Store.bind at 1, Store.require_exists. rewrite Hfile.
  unfold Store.ret at 1 2. cbn [Store.map_m].
  unfold Store.bind at 1 2, Store.enrich_bill, Store.bind at 1 2 3.
  rewrite (read_raw_run _ _ _ Hl), (dict_copy_run _ _ _ Hl), setitem_run.
  unfold Store.ret, Store.bind. eexists. split; [reflexivity|].
  unfold cell. rewrite lookup_snoc_new, row_get_set, decide_True by done.
  do 2 f_equal. unfold sponsor_name_of.
  rewrite legislator_lookup_names, Hsid in *.
  destruct (parse_int (sponsor_id_raw row)) as [sid|]; [|done].
  destruct (Z.eqb_spec sid 0) as [->|_]; [done|].
  rewrite lookup_fmap. by destruct (legislator_by_id _ !! sid).
Qed.

(** C4 fails on the code: the sponsor id 0 is a sponsor for the bill
    summary and no sponsor for the preview.  With legislator 0, "Zed", as
    the sponsor of bill 10, the bill summary names "Zed" and the enriched
    preview row says "Unknown". *)
Theorem sponsor_zero_diverges :
  compute_bill_summary (load_bills [zero_sponsor_row])
    (load_legislators [zero_legislator_row]) [] ∅
  = [mkBillRow 10 "Act A" 0 0 "Zed"]
  ∧ Store.enrich_rows [0%nat] "bills" zero_sponsor_dir
      [Store.ORaw zero_sponsor_row]
    = Store.Ok ([1%nat], ["sponsor_name"])
        [Store.ORaw zero_sponsor_row;
         Store.ORow [("id", Store.VStr "10"); ("title", Store.VStr "Act A");
                     ("sponsor_id", Store.VStr "0");
                     ("sponsor_name", Store.VStr "Unknown")]]
  ∧ Store.preview_dataset zero_sponsor_dir "bills" 30 []
    = Store.Ok
        (Store.RawPreview [1%nat] ["id"; "title"; "sponsor_id"; "sponsor_name"])
        [Store.ORaw zero_sponsor_row;
         Store.ORow [("id", Store.VStr "10"); ("title", Store.VStr "Act A");
                     ("sponsor_id", Store.VStr "0");
                     ("sponsor_name", Store.VStr "Unknown")]].
Proof. repeat split; vm_compute; reflexivity. Qed.

(** * Further properties of the code *)

(** ** The bill summary as a projection of the loaded bills *)

(** X1: the bill summary has one row for every loaded bill, in ascending
    order of id, and a bill that no vote result resolves to has both
    counts at zero. *)
Theorem bill_summary_total bills legislators vrs votes :
  (λ row, (br_id row, br_title row))
    <$> compute_bill_summary bills legislators vrs votes
  ≡ₚ (λ bill, (bill_id_of bill, bill_title bill)) <$> bills
  ∧ StronglySorted (λ a b, br_id a ≤ br_id b)
      (compute_bill_summary bills legislators vrs votes)
  ∧ ∀ row, row ∈ compute_bill_summary bills legislators vrs votes →
      (∀ r v, r ∈ vrs → votes !! vote_id r = Some v →
              vote_bill_id v ≠ br_id row) →
      supporter_count row = 0 ∧ opposer_count row = 0.
Proof.
  split; [|split].
  - rewrite compute_bill_summary_eq.
    change (map ?f ?l) with (f <$> l).
    rewrite <- list_fmap_compose.
    by rewrite (sorted_perm bill_id_of bills).
  - rewrite compute_bill_summary_eq.
    apply (StronglySorted_fmap (λ a b, bill_id_of a ≤ bill_id_of b)); [done|].
    apply sorted_ascending.
  - intros row Hrow Hnone.
    destruct (bill_row_counts _ _ _ _ _ Hrow) as [-> ->].
    unfold legislators_voting.
    by rewrite !contributions_nil.
Qed.

Lemma bill_summary_total_witness :
  supporter_count (mkBillRow 11 "Act B" 0 0 "Unknown") = 0
  ∧ opposer_count (mkBillRow 11 "Act B" 0 0 "Unknown") = 0.
Proof.
  destruct (bill_summary_total [mkBill 11 "Act B" None] ex_legislators
              ex_vote_results ex_votes) as (_ & _ & H).
  apply H.
  - apply list_elem_of_here.
  - intros r v Hr Hv. unfold ex_vote_results in Hr.
    repeat (apply elem_of_cons in Hr as [->|Hr];
            [vm_compute in Hv; injection Hv as <-; simpl; lia|]).
    by apply elem_of_nil in Hr.
Defined.

(** ** Records with one id keep their load order *)

Lemma filter_fmap_comm {A B} (f : A → B) (P : B → Prop)
    `{!∀ y, Decision (P y)} (l : list A) :
  filter P (f <$> l) = f <$> filter (λ x, P (f x)) l.
Proof.
  induction l as [|x l IH]; [done|].
  rewrite fmap_cons, !filter_cons.
  destruct (decide (P (f x))); rewrite IH; done.
Qed.

(** X2: the sort by id is stable: the rows of a summary that share an id
    come in the order in which their records were loaded. *)
Theorem summaries_keep_load_order legislators bills vrs votes k :
  lr_name <$> filter (λ row, lr_id row = k)
                (compute_legislator_summary legislators vrs votes)
  = leg_name <$> filter (λ leg, leg_id leg = k) legislators
  ∧ (λ row, (br_title row, primary_sponsor row))
      <$> filter (λ row, br_id row = k)
            (compute_bill_summary bills legislators vrs votes)
    = (λ bill, (bill_title bill,
                sponsor_name_of (legislator_by_id legislators) bill))
        <$> filter (λ bill, bill_id_of bill = k) bills.
Proof.
  rewrite compute_legislator_summary_eq, compute_bill_summary_eq.
  change (map ?f ?l) with (f <$> l).
  rewrite !(filter_fmap_comm _ (λ row, _ row = k)). simpl.
  rewrite !sorted_stable, <- !list_fmap_compose. done.
Qed.

(** ** Which vote results matter *)

Lemma tally_step_other key elem votes acc r :
  vote_type r ≠ 1 → vote_type r ≠ 2 → tally_step key elem votes acc r = acc.
Proof.
  intros H1 H2. unfold tally_step.
  destruct (votes !! vote_id r); [|done].
  destruct (Z.eqb_spec (vote_type r) 1); [done|].
  by destruct (Z.eqb_spec (vote_type r) 2).
Qed.

(** X3: a vote result whose vote type is neither 1 nor 2 counts nowhere:
    with or without it both summaries are the same. *)
Theorem other_vote_type_ignored legislators bills pre r post votes :
  vote_type r ≠ 1 → vote_type r ≠ 2 →
  compute_legislator_summary legislators (pre ++ r :: post) votes
  = compute_legislator_summary legislators (pre ++ post) votes
  ∧ compute_bill_summary bills legislators (pre ++ r :: post) votes
    = compute_bill_summary bills legislators (pre ++ post) votes.
Proof.
  intros H1 H2.
  rewrite !compute_legislator_summary_eq, !compute_bill_summary_eq.
  rewrite !legislator_tally_eq, !bill_tally_eq.
  rewrite !(fold_left_app _ pre). simpl.
  by rewrite !tally_step_other.
Qed.

Lemma other_vote_type_ignored_witness :
  compute_bill_summary ex_bills ex_legislators
    ([mkVoteResult 1 100 1] ++ mkVoteResult 2 100 3 :: [mkVoteResult 2 100 2])
    ex_votes
  = compute_bill_summary ex_bills ex_legislators
      ([mkVoteResult 1 100 1] ++ [mkVoteResult 2 100 2]) ex_votes.
Proof.
  apply (other_vote_type_ignored ex_legislators ex_bills
           [mkVoteResult 1 100 1] (mkVoteResult 2 100 3)
           [mkVoteResult 2 100 2] ex_votes); simpl; lia.
Defined.

Lemma contributions_same_set key elem votes ty k vrs vrs' :
  (∀ r, r ∈ vrs ↔ r ∈ vrs') →
  distinct (contributions key elem votes ty k vrs)
  = distinct (contributions key elem votes ty k vrs').
Proof.
  intros Hsame. rewrite !distinct_size. do 2 f_equal.
  apply set_eq. intros x. rewrite !elem_of_list_to_set.
  unfold contributions. rewrite !list_elem_of_omap.
  split; intros (r & Hr & Hx); exists r; (split; [by apply Hsame|done]).
Qed.

(** X4: the summaries depend on the vote results as a set only: the
    order of the results and repeated results make no difference. *)
Theorem vote_results_as_a_set legislators bills vrs vrs' votes :
  (∀ r, r ∈ vrs ↔ r ∈ vrs') →
  compute_legislator_summary legislators vrs votes
  = compute_legislator_summary legislators vrs' votes
  ∧ compute_bill_summary bills legislators vrs votes
    = compute_bill_summary bills legislators vrs' votes.
Proof.
  intros Hsame.
  rewrite !compute_legislator_summary_eq, !compute_bill_summary_eq.
  rewrite !legislator_tally_eq, !bill_tally_eq. split.
  - apply map_ext. intros leg. unfold legislator_row. f_equal.
    + destruct (tally_len_get (λ r _, legislator_id r) (λ _ v, vote_bill_id v)
                  votes vrs (leg_id leg)) as [-> _].
      destruct (tally_len_get (λ r _, legislator_id r) (λ _ v, vote_bill_id v)
                  votes vrs' (leg_id leg)) as [-> _].
      by apply contributions_same_set.
    + destruct (tally_len_get (λ r _, legislator_id r) (λ _ v, vote_bill_id v)
                  votes vrs (leg_id leg)) as [_ ->].
      destruct (tally_len_get (λ r _, legislator_id r) (λ _ v, vote_bill_id v)
                  votes vrs' (leg_id leg)) as [_ ->].
      by apply contributions_same_set.
  - apply map_ext. intros bill. unfold bill_row. f_equal.
    + destruct (tally_len_get (λ _ v, vote_bill_id v) (λ r _, legislator_id r)
                  votes vrs (bill_id_of bill)) as [-> _].
      destruct (tally_len_get (λ _ v, vote_bill_id v) (λ r _, legislator_id r)
                  votes vrs' (bill_id_of bill)) as [-> _].
      by apply contributions_same_set.
    + destruct (tally_len_get (λ _ v, vote_bill_id v) (λ r _, legislator_id r)
                  votes vrs (bill_id_of bill)) as [_ ->].
      destruct (tally_len_get (λ _ v, vote_bill_id v) (λ r _, legislator_id r)
                  votes vrs' (bill_id_of bill)) as [_ ->].
      by apply contributions_same_set.
Qed.

Lemma vote_results_as_a_set_witness :
  compute_legislator_summary ex_legislators ex_vote_results ex_votes
  = compute_legislator_summary ex_legislators
      [mkVoteResult 2 100 2; mkVoteResult 1 100 1; mkVoteResult 2 100 2]
      ex_votes.
Proof.
  apply (vote_results_as_a_set ex_legislators ex_bills ex_vote_results
           [mkVoteResult 2 100 2; mkVoteResult 1 100 1; mkVoteResult 2 100 2]
           ex_votes).
  intros r. unfold ex_vote_results.
  rewrite !elem_of_cons, !elem_of_nil. tauto.
Defined.

(** X5: the two tallies are two views of one relation: a bill is in the
    supported (opposed) set of a legislator exactly when the legislator is
    in the supporter (opposer) set of the bill. *)
Theorem tallies_are_converse vrs votes l b :
  (b ∈ default ∅ ((legislator_tally vrs votes).1 !! l)
   ↔ l ∈ default ∅ ((bill_tally vrs votes).1 !! b))
  ∧ (b ∈ default ∅ ((legislator_tally vrs votes).2 !! l)
     ↔ l ∈ default ∅ ((bill_tally vrs votes).2 !! b)).
Proof.
  rewrite legislator_tally_eq, bill_tally_eq.
  destruct (tally_lookup (λ r _, legislator_id r) (λ _ v, vote_bill_id v)
              votes vrs l) as [-> ->].
  destruct (tally_lookup (λ _ v, vote_bill_id v) (λ r _, legislator_id r)
              votes vrs b) as [-> ->].
  rewrite !elem_of_list_to_set. unfold contributions.
  rewrite !list_elem_of_omap.
  split; split; intros (r & Hr & H); exists r; (split; [done|]);
    destruct (votes !! vote_id r) as [v|]; try done;
    destruct (vote_type r =? _); try done; simpl in *;
    destruct (Z.eqb_spec (legislator_id r) l);
    destruct (Z.eqb_spec (vote_bill_id v) b); simplify_eq; done.
Qed.

(** ** One more vote result *)

Lemma contributions_app key elem votes ty k vrs1 vrs2 :
  contributions key elem votes ty k (vrs1 ++ vrs2)
  = contributions key elem votes ty k vrs1
    ++ contributions key elem votes ty k vrs2.
Proof. unfold contributions. apply omap_app. Qed.

Lemma size_add_one (x : Z) (C : gset Z) :
  (size C ≤ size ({[x]} ∪ C) ≤ size C + 1)%nat.
Proof.
  split; [apply subseteq_size; set_solver|].
  rewrite size_union_alt, size_singleton.
  assert (size (C ∖ {[x]}) ≤ size C)%nat by (apply subseteq_size; set_solver).
  lia.
Qed.

(** The counts under one key before and after one result is added. *)
Lemma distinct_insert key elem votes k pre r post :
  distinct (contributions key elem votes 1 k (pre ++ post))
  ≤ distinct (contributions key elem votes 1 k (pre ++ r :: post))
  ∧ distinct (contributions key elem votes 2 k (pre ++ post))
    ≤ distinct (contributions key elem votes 2 k (pre ++ r :: post))
  ∧ distinct (contributions key elem votes 1 k (pre ++ r :: post))
    + distinct (contributions key elem votes 2 k (pre ++ r :: post))
    ≤ distinct (contributions key elem votes 1 k (pre ++ post))
      + distinct (contributions key elem votes 2 k (pre ++ post)) + 1.
Proof.
  rewrite !distinct_size, !contributions_app.
  rewrite !(contributions_cons _ _ _ _ _ r post).
  rewrite !list_to_set_app_L.
  set (A1 := list_to_set (contributions key elem votes 1 k pre) : gset Z).
  set (A2 := list_to_set (contributions key elem votes 2 k pre) : gset Z).
  set (B1 := list_to_set (contributions key elem votes 1 k post) : gset Z).
  set (B2 := list_to_set (contributions key elem votes 2 k post) : gset Z).
  assert (∀ (x : Z) (A B : gset Z), A ∪ ({[x]} ∪ B) = {[x]} ∪ (A ∪ B))
    as Hmove by set_solver.
  assert (∀ A B : gset Z, A ∪ (∅ ∪ B) = A ∪ B) as Hnone by set_solver.
  unfold contributions. simpl.
  destruct (votes !! vote_id r) as [v|]; simpl; [|rewrite !Hnone; lia].
  destruct (Z.eqb_spec (vote_type r) 1) as [H1|H1];
    destruct (Z.eqb_spec (vote_type r) 2) as [H2|H2]; try lia; simpl;
    destruct (key r v =? k); simpl;
    rewrite ?list_to_set_nil, ?list_to_set_singleton, ?Hnone, ?Hmove;
    rewrite ?(right_id_L ∅ (∪));
    try lia.
  - rewrite (Hmove (elem r v) A1 B1).
    pose proof (size_add_one (elem r v) (A1 ∪ B1)). lia.
  - rewrite (Hmove (elem r v) A2 B2).
    pose proof (size_add_one (elem r v) (A2 ∪ B2)). lia.
Qed.

(** X6: one more vote result lowers no count, and raises the two counts
    of a row by at most one in all. *)
Theorem one_result_adds_at_most_one legislators bills pre r post votes :
  Forall2 (λ row row',
      lr_id row' = lr_id row ∧ lr_name row' = lr_name row
      ∧ num_supported_bills row ≤ num_supported_bills row'
      ∧ num_opposed_bills row ≤ num_opposed_bills row'
      ∧ num_supported_bills row' + num_opposed_bills row'
        ≤ num_supported_bills row + num_opposed_bills row + 1)
    (compute_legislator_summary legislators (pre ++ post) votes)
    (compute_legislator_summary legislators (pre ++ r :: post) votes)
  ∧ Forall2 (λ row row',
        br_id row' = br_id row ∧ br_title row' = br_title row
        ∧ primary_sponsor row' = primary_sponsor row
        ∧ supporter_count row ≤ supporter_count row'
        ∧ opposer_count row ≤ opposer_count row'
        ∧ supporter_count row' + opposer_count row'
          ≤ supporter_count row + opposer_count row + 1)
      (compute_bill_summary bills legislators (pre ++ post) votes)
      (compute_bill_summary bills legislators (pre ++ r :: post) votes).
Proof.
  rewrite !compute_legislator_summary_eq, !compute_bill_summary_eq.
  rewrite !legislator_tally_eq, !bill_tally_eq.
  change (map ?f ?l) with (f <$> l). split.
  - apply Forall2_fmap, Forall_Forall2_diag, Forall_forall.
    intros leg _. simpl.
    destruct (tally_len_get (λ r _, legislator_id r) (λ _ v, vote_bill_id v)
                votes (pre ++ post) (leg_id leg)) as [-> ->].
    destruct (tally_len_get (λ r _, legislator_id r) (λ _ v, vote_bill_id v)
                votes (pre ++ r :: post) (leg_id leg)) as [-> ->].
    split; [done|]. split; [done|]. apply distinct_insert.
  - apply Forall2_fmap, Forall_Forall2_diag, Forall_forall.
    intros bill _. simpl.
    destruct (tally_len_get (λ _ v, vote_bill_id v) (λ r _, legislator_id r)
                votes (pre ++ post) (bill_id_of bill)) as [-> ->].
    destruct (tally_len_get (λ _ v, vote_bill_id v) (λ r _, legislator_id r)
                votes (pre ++ r :: post) (bill_id_of bill)) as [-> ->].
    split; [done|]. split; [done|]. split; [done|]. apply distinct_insert.
Qed.

(** ** The vote lookup *)

Lemma load_votes_snoc rows row :
  load_votes (rows ++ [row])
  = match vote_of_row row with
    | Some vote => <[vote_id_of vote := vote]> (load_votes rows)
    | None => load_votes rows
    end.
Proof.
  unfold load_votes, vote_of_row. rewrite fold_left_app. simpl.
  destruct (parse_int (row_get row "id")); [|done].
  by destruct (parse_int (row_get row "bill_id")).
Qed.

Lemma load_votes_lookup rows k :
  load_votes rows !! k
  = last (filter (λ vote, vote_id_of vote = k) (omap vote_of_row rows)).
Proof.
  induction rows as [|row rows IH] using rev_ind; [done|].
  rewrite load_votes_snoc, omap_app, filter_app. simpl.
  destruct (vote_of_row row) as [vote|]; simpl.
  - rewrite lookup_insert, (filter_cons _ vote), filter_nil.
    case_decide as Hk; destruct (decide (vote_id_of vote = k)); try done.
    + by rewrite last_snoc.
    + by rewrite app_nil_r.
  - by rewrite filter_nil, app_nil_r.
Qed.

(** X7: the vote lookup maps an id to the last row with that id of which
    both the id and the bill id parse; a row with an unparsable field is
    skipped and replaces nothing; every vote is stored under its own id;
    and loading two lists one after the other lets the later win. *)
Theorem load_votes_last_wins rows rows' k :
  load_votes rows !! k
  = last (filter (λ vote, vote_id_of vote = k) (omap vote_of_row rows))
  ∧ (∀ vote, load_votes rows !! k = Some vote →
       vote_id_of vote = k
       ∧ ∃ row, row ∈ rows
           ∧ parse_int (row_get row "id") = Some k
           ∧ parse_int (row_get row "bill_id") = Some (vote_bill_id vote))
  ∧ load_votes (rows ++ rows') !! k
    = match load_votes rows' !! k with
      | Some vote => Some vote
      | None => load_votes rows !! k
      end.
Proof.
  split; [apply load_votes_lookup|]. split.
  - intros vote. rewrite load_votes_lookup. intros Hlast.
    apply last_Some_elem_of, list_elem_of_filter in Hlast as [Hid Hin].
    split; [done|].
    apply list_elem_of_omap in Hin as (row & Hrow & Hvote).
    exists row. split; [done|]. unfold vote_of_row in Hvote.
    destruct (parse_int (row_get row "id")) as [i|]; [|done].
    destruct (parse_int (row_get row "bill_id")) as [b|]; [|done].
    injection Hvote as <-. simpl in Hid. by subst.
  - rewrite !load_votes_lookup, omap_app, filter_app, last_app.
    by destruct (last _).
Qed.

Lemma load_votes_last_wins_witness :
  vote_id_of (mkVote 100 10) = 100
  ∧ ∃ row, row ∈ [[("id", "100"); ("bill_id", "9")];
                  [("id", "100"); ("bill_id", "10")];
                  [("id", "100"); ("bill_id", "")]]
      ∧ parse_int (row_get row "id") = Some 100
      ∧ parse_int (row_get row "bill_id") = Some (vote_bill_id (mkVote 100 10)).
Proof.
  destruct (load_votes_last_wins
              [[("id", "100"); ("bill_id", "9")];
               [("id", "100"); ("bill_id", "10")];
               [("id", "100"); ("bill_id", "")]] [] 100) as (_ & H & _).
  apply H. vm_compute. reflexivity.
Defined.

(** ** The list loaders *)

Lemma load_legislators_app rows rows' :
  load_legislators (rows ++ rows')
  = load_legislators rows ++ load_legislators rows'.
Proof.
  induction rows as [|row rows IH]; [done|]. simpl.
  destruct (parse_int (row_get row "id")); by rewrite IH.
Qed.

Lemma load_bills_app rows rows' :
  load_bills (rows ++ rows') = load_bills rows ++ load_bills rows'.
Proof.
  induction rows as [|row rows IH]; [done|]. simpl.
  destruct (parse_int (row_get row "id")); by rewrite IH.
Qed.

Lemma load_vote_results_app rows rows' :
  load_vote_results (rows ++ rows')
  = load_vote_results rows ++ load_vote_results rows'.
Proof.
  induction rows as [|row rows IH]; [done|]. simpl.
  destruct (parse_int (row_get row "legislator_id")); [|done].
  destruct (parse_int (row_get row "vote_id")); [|done].
  destruct (parse_int (row_get row "vote_type")); by rewrite IH.
Qed.

(** X8: the three list loaders read row by row: loading two lists of rows
    one after the other gives the two loaded lists one after the other,
    and a row whose required integer does not parse is left out without
    any effect on the rows around it. *)
Theorem loaders_skip_malformed_rows pre row post :
  (load_legislators (pre ++ post)
   = load_legislators pre ++ load_legislators post
   ∧ load_bills (pre ++ post) = load_bills pre ++ load_bills post
   ∧ load_vote_results (pre ++ post)
     = load_vote_results pre ++ load_vote_results post)
  ∧ (parse_int (row_get row "id") = None →
     load_legislators (pre ++ row :: post) = load_legislators (pre ++ post)
     ∧ load_bills (pre ++ row :: post) = load_bills (pre ++ post))
  ∧ (parse_int (row_get row "legislator_id") = None
     ∨ parse_int (row_get row "vote_id") = None
     ∨ parse_int (row_get row "vote_type") = None →
     load_vote_results (pre ++ row :: post) = load_vote_results (pre ++ post)).
Proof.
  split; [|split].
  - by rewrite load_legislators_app, load_bills_app, load_vote_results_app.
  - intros Hid.
    rewrite !load_legislators_app, !load_bills_app. simpl. by rewrite Hid.
  - intros Hbad. rewrite !load_vote_results_app. simpl.
    destruct (parse_int (row_get row "legislator_id")); [|done].
    destruct (parse_int (row_get row "vote_id")); [|done].
    destruct (parse_int (row_get row "vote_type")); [|done].
    naive_solver.
Qed.

Lemma loaders_skip_malformed_rows_witness :
  load_vote_results
    ([[("legislator_id", "1"); ("vote_id", "100"); ("vote_type", "1")]]
     ++ [("legislator_id", "2"); ("vote_id", "x"); ("vote_type", "1")]
        :: [[("legislator_id", "3"); ("vote_id", "100"); ("vote_type", "2")]])
  = load_vote_results
      ([[("legislator_id", "1"); ("vote_id", "100"); ("vote_type", "1")]]
       ++ [[("legislator_id", "3"); ("vote_id", "100"); ("vote_type", "2")]]).
Proof.
  apply (loaders_skip_malformed_rows
           [[("legislator_id", "1"); ("vote_id", "100"); ("vote_type", "1")]]
           [("legislator_id", "2"); ("vote_id", "x"); ("vote_type", "1")]
           [[("legislator_id", "3"); ("vote_id", "100"); ("vote_type", "2")]]).
  right. left. reflexivity.
Defined.

(** ** The sponsor column *)

(** X9: the sponsor of a loaded bill is read from the first of the three
    sponsor columns that is present and not empty, and from that one
    alone: when its text is no integer the bill has no sponsor, whatever
    the later columns hold. *)
Theorem sponsor_alias_priority row bill :
  bill ∈ load_bills [row] →
  bill_sponsor_id bill
  = head (filter (λ s, s ≠ "") (omap (row_get row) sponsor_columns))
    ≫= py_int.
Proof.
  simpl. destruct (parse_int (row_get row "id")); [|by rewrite elem_of_nil].
  intros ->%list_elem_of_singleton. simpl.
  unfold sponsor_id_raw, sponsor_columns. simpl.
  destruct (row_get row "Primary Sponsor") as [[|c1 s1]|];
    destruct (row_get row "primary_sponsor") as [[|c2 s2]|];
    destruct (row_get row "sponsor_id") as [[|c3 s3]|]; done.
Qed.

Lemma sponsor_alias_priority_witness :
  bill_sponsor_id (mkBill 10 "Act A" None)
  = head (filter (λ s, s ≠ "")
            (omap (row_get [("id", "10"); ("title", "Act A");
                            ("Primary Sponsor", "n/a"); ("sponsor_id", "1")])
               sponsor_columns))
    ≫= py_int.
Proof.
  apply (sponsor_alias_priority
           [("id", "10"); ("title", "Act A");
            ("Primary Sponsor", "n/a"); ("sponsor_id", "1")]).
  vm_compute. apply list_elem_of_here.
Defined.

(** ** Category names *)

Lemma lower_char_idemp c : lower_char (lower_char c) = lower_char c.
Proof. destruct c as [[] [] [] [] [] [] [] []]; vm_compute; reflexivity. Qed.

Lemma lower_idemp s : lower (lower s) = lower s.
Proof.
  induction s as [|c s IH]; [done|]. simpl. by rewrite lower_char_idemp, IH.
Qed.

Lemma normalize_category_Some value c :
  normalize_category value = Some c
  ↔ ∃ s, value = Some s ∧ lower s = c ∧ c ∈ CATEGORIES.
Proof.
  unfold normalize_category, CATEGORIES. split.
  - destruct value as [s|]; [|done].
    repeat case_bool_decide; intros [= <-]; exists s;
      (split; [done|]); (split; [done|]); apply elem_of_app; auto.
  - intros (s & -> & <- & [Hin|Hin]%elem_of_app).
    + by rewrite bool_decide_true.
    + rewrite (bool_decide_true _ Hin). by case_bool_decide.
Qed.


(** X11: normalising is idempotent: a recognised name is one of the six
    names and normalises to itself; and the case of the letters of the
    input does not matter. *)
Theorem normalize_category_idempotent value s :
  normalize_category (normalize_category value) = normalize_category value
  ∧ normalize_category (Some (lower s)) = normalize_category (Some s)
  ∧ Forall (λ c, normalize_category (Some c) = Some c) CATEGORIES.
Proof.
  split; [|split].
  - destruct (normalize_category value) as [c|] eqn:Hc; [|done].
    apply normalize_category_Some in Hc as (s' & _ & <- & Hin).
    apply normalize_category_Some. exists (lower s').
    by rewrite lower_idemp.
  - unfold normalize_category. by rewrite lower_idemp.
  - repeat constructor.
Qed.

(** ** Previews *)




(** The preview of a file that exists: its first rows are put in the
    store and handed to [enrich_rows]; nothing happens when there is no
    row. *)
Lemma preview_raw_run data_dir category limit (h : Store.heap) content :
  dataset data_dir category = Some (Some content) →
  Store.preview_dataset data_dir category limit h
  = match take limit content with
    | [] => Store.Ok Store.NoRows h
    | r0 :: _ =>
        match Store.enrich_rows
                (seq (length h) (length (take limit content)))
                category data_dir
                (h ++ (Store.ORaw <$> take limit content)) with
        | Store.Ok out h' =>
            Store.Ok
              (Store.RawPreview out.1
                 (row_keys r0 ++ filter (λ f, f ∉ row_keys r0) out.2)) h'
        | Store.Raise e => Store.Raise e
        end
    end.
Proof.
  intros Hfile. unfold Store.preview_dataset. rewrite Hfile.
  unfold Store.bind at 1, Store.require_exists, Store.ret at 1.
  unfold Store.bind at 1. rewrite alloc_rows_run.
  destruct (take limit content) as [|r0 rest].
  { simpl. unfold Store.ret. by rewrite app_nil_r. }
  cbn [length seq]. rewrite fmap_cons.
  unfold Store.bind at 1, Store.keys, Store.bind at 1, Store.read.
  rewrite lookup_app_r, Nat.sub_diag by lia. cbn [lookup list_lookup].
  unfold Store.ret at 1. unfold Store.bind at 1.
  by destruct (Store.enrich_rows _ _ _ _) as [[rows' extra] h'|e].
Qed.

(** The two computed previews. *)
Lemma preview_legislator_summary_run data_dir limit (h : Store.heap) :
  match legislators_csv data_dir, votes_csv data_dir,
        vote_results_csv data_dir with
  | Some legislators_rows, Some votes_rows, Some vote_results_rows =>
      ∃ ext,
        Store.preview_dataset data_dir "legislator_summary" limit h
        = Store.Ok
            (Store.LegislatorPreview
               (take limit
                  (compute_legislator_summary
                     (load_legislators legislators_rows)
                     (load_vote_results vote_results_rows)
                     (load_votes votes_rows)))
               ["id"; "name"; "num_supported_bills"; "num_opposed_bills"])
            (h ++ ext)
  | _, _, _ =>
      Store.preview_dataset data_dir "legislator_summary" limit h
      = Store.Raise (Store.Exit 1)
  end.
Proof.
  unfold Store.preview_dataset, dataset. cbn [String.eqb Ascii.eqb Bool.eqb].
  destruct (legislators_csv data_dir) as [legislators_rows|]; [|done].
  destruct (votes_csv data_dir) as [votes_rows|]; [|done].
  destruct (vote_results_csv data_dir) as [vote_results_rows|]; [|done].
  unfold Store.bind, Store.require_exists, Store.ret.
  destruct (compute_legislator_summary_run (load_legislators legislators_rows)
              (load_vote_results vote_results_rows) (load_votes votes_rows) h)
    as [ext ->].
  by exists ext.
Qed.

Lemma preview_bill_summary_run data_dir limit (h : Store.heap) :
  match legislators_csv data_dir, bills_csv data_dir, votes_csv data_dir,
        vote_results_csv data_dir with
  | Some legislators_rows, Some bills_rows, Some votes_rows,
    Some vote_results_rows =>
      ∃ ext,
        Store.preview_dataset data_dir "bill_summary" limit h
        = Store.Ok
            (Store.BillPreview
               (take limit
                  (compute_bill_summary (load_bills bills_rows)
                     (load_legislators legislators_rows)
                     (load_vote_results vote_results_rows)
                     (load_votes votes_rows)))
               ["id"; "title"; "supporter_count"; "opposer_count";
                "primary_sponsor"])
            (h ++ ext)
  | _, _, _, _ =>
      Store.preview_dataset data_dir "bill_summary" limit h
      = Store.Raise (Store.Exit 1)
  end.
Proof.
  unfold Store.preview_dataset, dataset. cbn [String.eqb Ascii.eqb Bool.eqb].
  destruct (legislators_csv data_dir) as [legislators_rows|]; [|done].
  destruct (bills_csv data_dir) as [bills_rows|]; [|done].
  destruct (votes_csv data_dir) as [votes_rows|]; [|done].
  destruct (vote_results_csv data_dir) as [vote_results_rows|]; [|done].
  unfold Store.bind, Store.require_exists, Store.ret.
  destruct (compute_bill_summary_run (load_bills bills_rows)
              (load_legislators legislators_rows)
              (load_vote_results vote_results_rows) (load_votes votes_rows) h)
    as [ext ->].
  by exists ext.
Qed.



(** X13: the preview of a file shows its first [limit] rows, in order:
    as many rows as the smaller of [limit] and the number of rows of the
    file, each with the values of the file in every column that is not an
    added field; the column names are those of the first row of the file
    followed by the added fields it does not have.  With no row to show
    nothing is put in the store and no lookup file is read. *)
Theorem preview_shows_first_rows data_dir category limit (h : Store.heap)
    content :
  dataset data_dir category = Some (Some content) →
  (take limit content = [] →
   Store.preview_dataset data_dir category limit h = Store.Ok Store.NoRows h)
  ∧ ∀ shown h',
      Store.preview_dataset data_dir category limit h = Store.Ok shown h' →
      match shown with
      | Store.NoRows => take limit content = [] ∧ h' = h
      | Store.RawPreview rows fieldnames =>
          length rows = min limit (length content)
          ∧ (∃ r0, head content = Some r0
               ∧ fieldnames
                 = row_keys r0
                   ++ filter (λ f, f ∉ row_keys r0) (extra_fields category))
          ∧ Forall2 (λ l r, ∀ k, k ∉ extra_fields category →
                       cell h' l k = Store.VStr <$> row_get r k)
              rows (take limit content)
      | _ => False
      end.
Proof.
  intros Hfile. rewrite (preview_raw_run _ _ _ _ _ Hfile).
  split; [by intros ->|]. intros shown h'.
  destruct (take limit content) as [|r0 rest] eqn:Htake.
  { by intros [= <- <-]. }
  assert (head content = Some r0) as Hhead.
  { destruct limit; [done|]. destruct content; [done|].
    simpl in Htake. by injection Htake as -> _. }
  pose proof (enrich_rows_frame (seq (length h) (length (r0 :: rest)))
                category data_dir (h ++ (Store.ORaw <$> r0 :: rest))
                (r0 :: rest) (alloc_rows_lookup (r0 :: rest) h)) as Hok.
  destruct (Store.enrich_rows _ _ _ _) as [[rows' extra] h1|e]; [|done].
  intros [= <- <-]. destruct Hok as (_ & Hraw & Hextra & Hrows).
  cbn [fst snd] in *. subst extra.
  assert (Forall2 (λ l r, ∀ k, k ∉ extra_fields category →
                     cell h1 l k = Store.VStr <$> row_get r k)
            rows' (r0 :: rest)) as Hcells.
  { destruct (enriched category).
    - destruct Hrows as [_ Hrows]. eapply Forall2_impl; [exact Hrows|].
      intros l r (_ & _ & Hkeep & _). exact Hkeep.
    - destruct Hrows as [-> ->]. eapply Forall2_impl; [exact Hraw|].
      intros l r Hl k _. unfold cell. by rewrite Hl. }
  split; [|split; [by exists r0|done]].
  rewrite (Forall2_length _ _ _ Hcells), <- Htake. apply length_take.
Qed.

Lemma preview_shows_first_rows_witness :
  length [1%nat] = min 1 (length [[("id", "100"); ("bill_id", "10")];
                                  [("id", "101"); ("bill_id", "11")]])
  ∧ (∃ r0, head [[("id", "100"); ("bill_id", "10")];
                 [("id", "101"); ("bill_id", "11")]] = Some r0
       ∧ ["id"; "bill_id"; "bill_title"]
         = row_keys r0 ++ filter (λ f, f ∉ row_keys r0) (extra_fields "votes"))
  ∧ Forall2 (λ l r, ∀ k, k ∉ extra_fields "votes" →
               cell [Store.ORaw [("id", "100"); ("bill_id", "10")];
                     Store.ORow [("id", Store.VStr "100");
                                 ("bill_id", Store.VStr "10");
                                 ("bill_title", Store.VStr "Act A")]] l k
               = Store.VStr <$> row_get r k)
      [1%nat] (take 1 [[("id", "100"); ("bill_id", "10")];
                       [("id", "101"); ("bill_id", "11")]]).
Proof.
  apply (proj2 (preview_shows_first_rows two_votes_dir "votes" 1 []
                  [[("id", "100"); ("bill_id", "10")];
                   [("id", "101"); ("bill_id", "11")]] eq_refl)
           (Store.RawPreview [1%nat] ["id"; "bill_id"; "bill_title"])
           [Store.ORaw [("id", "100"); ("bill_id", "10")];
            Store.ORow [("id", Store.VStr "100"); ("bill_id", Store.VStr "10");
                        ("bill_title", Store.VStr "Act A")]]).
  vm_compute. reflexivity.
Defined.

(** X14: the two computed previews show the first [limit] rows of what
    [summarize] computes from the same files, under fixed column names;
    the preview of the legislator summary does not read the bills file. *)
Theorem computed_previews_show_summaries data_dir limit (h : Store.heap)
    legislator_rows bill_rows h1 :
  Store.summarize data_dir h = Store.Ok (legislator_rows, bill_rows) h1 →
  (∃ ext,
     Store.preview_dataset data_dir "legislator_summary" limit h
     = Store.Ok
         (Store.LegislatorPreview (take limit legislator_rows)
            ["id"; "name"; "num_supported_bills"; "num_opposed_bills"])
         (h ++ ext))
  ∧ (∃ ext,
       Store.preview_dataset data_dir "bill_summary" limit h
       = Store.Ok
           (Store.BillPreview (take limit bill_rows)
              ["id"; "title"; "supporter_count"; "opposer_count";
               "primary_sponsor"])
           (h ++ ext))
  ∧ ∀ other_bills,
      Store.preview_dataset
        (mkDataDir other_bills (legislators_csv data_dir)
           (votes_csv data_dir) (vote_results_csv data_dir))
        "legislator_summary" limit h
      = Store.preview_dataset data_dir "legislator_summary" limit h.
Proof.
  intros Hsum. apply (proj1 (Logic.and_assoc _ _ _)). split.
  - pose proof (summarize_run data_dir h) as Hrun.
    pose proof (preview_legislator_summary_run data_dir limit h) as Hleg.
    pose proof (preview_bill_summary_run data_dir limit h) as Hbill.
    rewrite Hsum in Hrun.
    destruct (bills_csv data_dir); [|done].
    destruct (legislators_csv data_dir); [|done].
    destruct (votes_csv data_dir); [|done].
    destruct (vote_results_csv data_dir); [|done].
    by destruct Hrun as [ext [= -> -> _]].
  - intros other_bills. unfold Store.preview_dataset, dataset.
    cbn [String.eqb Ascii.eqb Bool.eqb]. reflexivity.
Qed.

Lemma computed_previews_show_summaries_witness :
  (∃ ext,
     Store.preview_dataset zero_sponsor_dir "legislator_summary" 1 []
     = Store.Ok
         (Store.LegislatorPreview (take 1 [mkLegislatorRow 0 "Zed" 0 0])
            ["id"; "name"; "num_supported_bills"; "num_opposed_bills"])
         ([] ++ ext))
  ∧ (∃ ext,
       Store.preview_dataset zero_sponsor_dir "bill_summary" 1 []
       = Store.Ok
           (Store.BillPreview (take 1 [mkBillRow 10 "Act A" 0 0 "Zed"])
              ["id"; "title"; "supporter_count"; "opposer_count";
               "primary_sponsor"])
           ([] ++ ext)).
Proof.
  refine (proj1 (proj2 (Logic.and_assoc _ _ _)
                   (computed_previews_show_summaries zero_sponsor_dir 1 []
                      _ _ _ _))).
  vm_compute. reflexivity.
Defined.




(** ** The added fields of votes and vote results *)

(** The bill lookup holds, under each id, the last bill loaded with it. *)
Lemma bill_lookup_last bills k :
  fold_left (λ d bill, <[bill_id_of bill := bill]> d) bills
    (∅ : gmap Z Bill) !! k
  = last (filter (λ bill, bill_id_of bill = k) bills).
Proof.
  induction bills as [|bill bills IH] using rev_ind; [done|].
  rewrite fold_left_app, filter_app. simpl. rewrite lookup_insert.
  rewrite (filter_cons _ bill), filter_nil.
  case_decide as Hid; destruct (decide (bill_id_of bill = k)); try done.
  - by rewrite last_snoc.
  - by rewrite app_nil_r.
Qed.

(** X17: the [bill_title] that the preview of votes adds to a row is the
    title of the last bill loaded under the row's bill id, and "Unknown"
    when the bill id is no integer or no loaded bill has it. *)
Theorem vote_preview_title data_dir bills_rows (h : Store.heap) l row :
  bills_csv data_dir = Some bills_rows →
  h !! l = Some (Store.ORaw row) →
  ∃ h',
    Store.enrich_rows [l] "votes" data_dir h
    = Store.Ok ([length h], ["bill_title"]) h'
    ∧ cell h' (length h) "bill_title"
      = Some (Store.VStr
                (from_option bill_title "Unknown"
                   (parse_int (row_get row "bill_id") ≫= λ b,
                      last (filter (λ bill, bill_id_of bill = b)
                              (load_bills bills_rows))))).
Proof.
  intros Hfile Hl.
  unfold Store.enrich_rows. cbn [String.eqb Ascii.eqb Bool.eqb].
  unfold Store.bind at 1, Store.load_bill_lookup.
  unfold Store.bind at 1, Store.require_exists. rewrite Hfile.
  unfold Store.ret at 1 2. cbn [Store.map_m].
  unfold Store.bind at 1 2, Store.enrich_vote, Store.bind at 1 2 3.
  rewrite (read_raw_run _ _ _ Hl), (dict_copy_run _ _ _ Hl), setitem_run.
  unfold Store.ret, Store.bind. eexists. split; [reflexivity|].
  unfold cell. rewrite lookup_snoc_new, row_get_set, decide_True by done.
  do 2 f_equal.
  destruct (parse_int (row_get row "bill_id")) as [b|]; simpl; [|done].
  rewrite bill_lookup_last. by destruct (last _).
Qed.

Lemma vote_preview_title_witness :
  ∃ h',
    Store.enrich_rows [0%nat] "votes" two_votes_dir
      [Store.ORaw [("id", "101"); ("bill_id", "11")]]
    = Store.Ok ([length [Store.ORaw [("id", "101"); ("bill_id", "11")]]],
                ["bill_title"]) h'
    ∧ cell h' (length [Store.ORaw [("id", "101"); ("bill_id", "11")]])
        "bill_title"
      = Some (Store.VStr
                (from_option bill_title "Unknown"
                   (parse_int (row_get [("id", "101"); ("bill_id", "11")]
                                 "bill_id") ≫= λ b,
                      last (filter (λ bill, bill_id_of bill = b)
                              (load_bills [[("id", "10"); ("title", "Act A")]]))))).
Proof.
  apply (vote_preview_title two_votes_dir [[("id", "10"); ("title", "Act A")]]
           [Store.ORaw [("id", "101"); ("bill_id", "11")]] 0%nat
           [("id", "101"); ("bill_id", "11")]); reflexivity.
Defined.

(** X18: the three fields that the preview of vote results adds to a row.
    [legislator_name] is the name of the last legislator loaded under the
    row's legislator id (the id 0 included), [bill_id] is the bill id of
    the vote the row's vote id resolves to, as an integer, and
    [bill_title] the title of the last bill loaded under that id; an
    unresolved legislator or bill is "Unknown", and [bill_id] is the empty
    string when the vote is unresolved. *)
Theorem vote_result_preview_fields data_dir legislators_rows bills_rows
    votes_rows (h : Store.heap) l row :
  legislators_csv data_dir = Some legislators_rows →
  bills_csv data_dir = Some bills_rows →
  votes_csv data_dir = Some votes_rows →
  h !! l = Some (Store.ORaw row) →
  ∃ h',
    Store.enrich_rows [l] "vote_results" data_dir h
    = Store.Ok ([length h], ["legislator_name"; "bill_id"; "bill_title"]) h'
    ∧ cell h' (length h) "legislator_name"
      = Some (Store.VStr
                (from_option leg_name "Unknown"
                   (parse_int (row_get row "legislator_id") ≫= λ i,
                      last (filter (λ leg, leg_id leg = i)
                              (load_legislators legislators_rows)))))
    ∧ cell h' (length h) "bill_id"
      = Some (from_option (λ vote, Store.VInt (vote_bill_id vote))
                (Store.VStr "")
                (parse_int (row_get row "vote_id")
                   ≫= (load_votes votes_rows !!.)))
    ∧ cell h' (length h) "bill_title"
      = Some (Store.VStr
                (from_option bill_title "Unknown"
                   ((parse_int (row_get row "vote_id")
                       ≫= (load_votes votes_rows !!.)) ≫= λ vote,
                      last (filter (λ bill, bill_id_of bill = vote_bill_id vote)
                              (load_bills bills_rows))))).
Proof.
  intros Hlegs Hbills Hvotes Hl.
  unfold Store.enrich_rows. cbn [String.eqb Ascii.eqb Bool.eqb].
  unfold Store.bind at 1, Store.load_legislator_lookup.
  unfold Store.bind at 1, Store.require_exists. rewrite Hlegs.
  unfold Store.ret at 1 2.
  unfold Store.bind at 1, Store.load_bill_lookup.
  unfold Store.bind at 1, Store.require_exists. rewrite Hbills.
  unfold Store.ret at 1 2.
  unfold Store.bind at 1, Store.load_vote_lookup.
  unfold Store.bind at 1, Store.require_exists. rewrite Hvotes.
  unfold Store.ret at 1 2. cbn [Store.map_m].
  unfold Store.bind at 1 2, Store.enrich_vote_result, Store.bind at 1 2 3.
  rewrite (read_raw_run _ _ _ Hl), (dict_copy_run _ _ _ Hl).
  unfold Store.bind at 1. rewrite setitem_run.
  unfold Store.bind at 1. rewrite setitem_run.
  unfold Store.bind at 1. rewrite setitem_run.
  unfold Store.ret, Store.bind. eexists. split; [reflexivity|].
  unfold cell. rewrite lookup_snoc_new, !row_get_set.
  rewrite legislator_lookup_names.
  destruct (parse_int (row_get row "legislator_id")) as [i|];
    destruct (parse_int (row_get row "vote_id")
                ≫= (load_votes votes_rows !!.)) as [vote|];
    simpl; rewrite ?lookup_fmap, ?legislator_by_id_lookup, ?bill_lookup_last;
    repeat split; repeat case_decide; try done;
    try by destruct (last _).
Qed.

Lemma vote_result_preview_fields_witness :
  ∃ h',
    Store.enrich_rows [0%nat] "vote_results" zero_sponsor_dir
      [Store.ORaw [("legislator_id", "0"); ("vote_id", "100");
                   ("vote_type", "1")]]
    = Store.Ok ([1%nat], ["legislator_name"; "bill_id"; "bill_title"]) h'
    ∧ cell h' 1 "legislator_name" = Some (Store.VStr "Zed")
    ∧ cell h' 1 "bill_id" = Some (Store.VStr "")
    ∧ cell h' 1 "bill_title" = Some (Store.VStr "Unknown").
Proof.
  apply (vote_result_preview_fields zero_sponsor_dir [zero_legislator_row]
           [zero_sponsor_row] []
           [Store.ORaw [("legislator_id", "0"); ("vote_id", "100");
                        ("vote_type", "1")]] 0%nat
           [("legislator_id", "0"); ("vote_id", "100"); ("vote_type", "1")]);
    reflexivity.
Defined.

Lemma sponsor_name_agrees_unless_zero_witness :
  ∃ h',
    Store.enrich_rows [0%nat] "bills" carol_sponsor_dir
      [Store.ORaw carol_sponsor_row]
    = Store.Ok ([1%nat], ["sponsor_name"]) h'
    ∧ cell h' 1 "sponsor_name"
      = Some (Store.VStr
                (sponsor_name_of
                   (legislator_by_id
                      (load_legislators [[("id", "7"); ("name", "Carol")]]))
                   (mkBill 10 "Act A" (Some 7)))).
Proof.
  apply (sponsor_name_agrees_unless_zero [[("id", "7"); ("name", "Carol")]]
           carol_sponsor_dir [Store.ORaw carol_sponsor_row] 0%nat
           carol_sponsor_row (mkBill 10 "Act A" (Some 7))).
  - reflexivity.
  - reflexivity.
  - vm_compute. apply list_elem_of_here.
  - discriminate.
Defined.

(** ** Names and titles *)

Lemma rstrip_cons c s :
  rstrip (String c s)
  = match rstrip s with
    | EmptyString => if is_space c then EmptyString else String c EmptyString
    | t => String c t
    end.
Proof. done. Qed.

Lemma rstrip_idemp s : rstrip (rstrip s) = rstrip s.
Proof.
  induction s as [|c s IH]; [done|]. rewrite rstrip_cons.
  destruct (rstrip s) as [|d t] eqn:Hs.
  - destruct (is_space c) eqn:Hc; [done|]. simpl. by rewrite Hc.
  - by rewrite rstrip_cons, IH.
Qed.

Lemma lstrip_head s :
  match lstrip s with
  | EmptyString => True
  | String c _ => is_space c = false
  end.
Proof.
  induction s as [|c s IH]; [done|]. simpl.
  by destruct (is_space c) eqn:Hc.
Qed.

Lemma strip_idemp s : strip (strip s) = strip s.
Proof.
  unfold strip. pose proof (lstrip_head s) as Hhead.
  destruct (lstrip s) as [|c t]; [done|].
  assert (lstrip (rstrip (String c t)) = rstrip (String c t)) as ->.
  { rewrite rstrip_cons. destruct (rstrip t); rewrite ?Hhead; simpl;
      by rewrite Hhead. }
  apply rstrip_idemp.
Qed.

(** X20: the names of the loaded legislators and the titles of the loaded
    bills carry no white space at either end: stripping them again changes
    nothing; a row without the column gives the empty text. *)
Theorem loaded_text_is_stripped rows :
  Forall (λ leg, strip (leg_name leg) = leg_name leg) (load_legislators rows)
  ∧ Forall (λ bill, strip (bill_title bill) = bill_title bill)
      (load_bills rows)
  ∧ Forall2 (λ leg row, row_get row "name" = None → leg_name leg = "")
      (load_legislators rows)
      (filter (λ row, is_Some (parse_int (row_get row "id"))) rows).
Proof.
  split; [|split].
  - induction rows as [|row rows IH]; simpl; [done|].
    destruct (parse_int (row_get row "id")); [|done].
    constructor; [apply strip_idemp|done].
  - induction rows as [|row rows IH]; simpl; [done|].
    destruct (parse_int (row_get row "id")); [|done].
    constructor; [apply strip_idemp|done].
  - induction rows as [|row rows IH]; simpl; [done|].
    rewrite filter_cons.
    destruct (parse_int (row_get row "id")) as [i|]; case_decide as Hid.
    + constructor; [|done]. simpl. by intros ->.
    + by destruct Hid.
    + by destruct Hid.
    + done.
Qed.

(** ** Integers in cells *)


